(** * cache-express: the cache stores and the pooling middleware

    A shallow embedding of [src/src/utils.ts] ([expiryFromMins]),
    [src/src/MemoryCache.ts], [src/src/RedisCache.ts] and, from
    [src/src/expressCache.ts], [hashString], the request's cache read,
    [respondWithCachedResponse], the request-pooling protocol and the
    cache events of the leader's response.

    Conventions of the embedding:
    - [Date.now()] is an explicit argument [now : Z] (milliseconds);
    - JS numbers used as minutes, milliseconds and status codes are [Z]
      (integral values);
    - the dependency arrays ([any[]]) are lists of [jsval], the JS values
      that [JSON.stringify] can meet;
    - an [async] method that throws yields a rejected promise: it returns
      the state reached at the [throw] together with [Throw e]. *)

From stdpp Require Import base gmap strings list pretty.
From Stdlib Require Import Ascii.

Set Warnings "-register-all".

Open Scope Z_scope.

(* ------------------------------------------------------------------ *)
(** ** JS values and [JSON.stringify] *)

Inductive jsval :=
  | JUndefined
  | JNull
  | JBool (b : bool)
  | JNum (n : Z)                             (* an integral number *)
  | JStr (s : string)
  | JArr (l : list jsval)
  | JObj (props : list (string * jsval))   (* own enumerable properties, in
                                              insertion order, keys distinct *)
  | JFun.                                    (* a function value *)

(** [JSON.stringify] escapes a string character by character. *)
Definition dquote : ascii := ascii_of_nat 34.

Definition hex_digit (n : nat) : ascii :=
  match n with
  | 0%nat => "0" | 1%nat => "1" | 2%nat => "2" | 3%nat => "3"
  | 4%nat => "4" | 5%nat => "5" | 6%nat => "6" | 7%nat => "7"
  | 8%nat => "8" | 9%nat => "9" | 10%nat => "a" | 11%nat => "b"
  | 12%nat => "c" | 13%nat => "d" | 14%nat => "e" | _ => "f"
  end.

Definition escape_char (c : ascii) : string :=
  let n := nat_of_ascii c in
  if (n =? 34)%nat then String "\" (String dquote EmptyString)
  else if (n =? 92)%nat then String "\" (String "\" EmptyString)
  else if (n =? 8)%nat then "\b"
  else if (n =? 12)%nat then "\f"
  else if (n =? 10)%nat then "\n"
  else if (n =? 13)%nat then "\r"
  else if (n =? 9)%nat then "\t"
  else if (n <? 32)%nat then
    String "\" (String "u" (String "0" (String "0"
      (String (hex_digit (n / 16)) (String (hex_digit (n mod 16)) EmptyString)))))
  else String c EmptyString.

Fixpoint escape_string (s : string) : string :=
  match s with
  | EmptyString => EmptyString
  | String c rest => escape_char c +:+ escape_string rest
  end.

Definition quote (s : string) : string :=
  String dquote (escape_string s +:+ String dquote EmptyString).

Fixpoint join (sep : string) (l : list string) : string :=
  match l with
  | [] => ""
  | [x] => x
  | x :: rest => x +:+ sep +:+ join sep rest
  end.



(** An array index: the canonical decimal form of an integer from 0 to
    2^32 - 2 (no sign, no leading zero). *)
Definition digit_value (c : ascii) : option Z :=
  let n := nat_of_ascii c in
  if (48 <=? n)%nat && (n <=? 57)%nat then Some (Z.of_nat n - 48) else None.

Fixpoint digits_value (acc : Z) (s : string) : option Z :=
  match s with
  | EmptyString => Some acc
  | String c rest =>
      match digit_value c with
      | Some d => digits_value (acc * 10 + d) rest
      | None => None
      end
  end.

Definition array_index (k : string) : option Z :=
  match k with
  | EmptyString => None
  | String c rest =>
      if Ascii.eqb c "0"%char then
        match rest with EmptyString => Some 0 | String _ _ => None end
      else
        match digits_value 0 k with
        | Some i => if i <? 4294967295 then Some i else None
        | None => None
        end
  end.

Fixpoint insert_by_index {A} (p : Z * (string * A)) (l : list (Z * (string * A)))
    : list (Z * (string * A)) :=
  match l with
  | [] => [p]
  | q :: rest => if p.1 <? q.1 then p :: l else q :: insert_by_index p rest
  end.

(** The order in which JS enumerates an object's own string keys: the
    array indices in ascending order, then the other keys in insertion
    order. *)
Definition own_keys_order {A} (props : list (string * A)) : list (string * A) :=
  map snd (foldr insert_by_index []
             (omap (fun kv => (fun i => (i, kv)) <$> array_index kv.1) props)) ++
  filter (fun kv => array_index kv.1 = None) props.

(** The properties of an object that [JSON.stringify] writes, with their
    serialized values: a property whose value serializes to [undefined]
    is left out. *)
Fixpoint serialize_props (ser : jsval -> option string) (ps : list (string * jsval))
    : list (string * string) :=
  match ps with
  | [] => []
  | (k, x) :: rest =>
      match ser x with
      | None => serialize_props ser rest
      | Some sx => (k, sx) :: serialize_props ser rest
      end
  end.

(** [JSON.stringify v]: [None] is the JS [undefined] result (for
    [undefined] and functions). Inside an array such a value is written
    [null]; inside an object its property is left out, and the others are
    written in the order JS enumerates the keys. *)
Fixpoint stringify (v : jsval) : option string :=
  match v with
  | JUndefined | JFun => None
  | JNull => Some "null"
  | JBool true => Some "true"
  | JBool false => Some "false"
  | JNum n => Some (pretty n)
  | JStr s => Some (quote s)
  | JArr l =>
      Some ("[" +:+ join ","
              (map (fun x => default "null" (stringify x)) l) +:+ "]")
  | JObj props =>
      Some ("{" +:+ join ","
              (map (fun '(k, sx) => quote k +:+ ":" +:+ sx)
                 (own_keys_order (serialize_props stringify props))) +:+ "}")
  end.

(** The dependency arrays are arrays, so their serialization is a string. *)
Definition stringify_deps (deps : list jsval) : string :=
  default "" (stringify (JArr deps)).

(* ------------------------------------------------------------------ *)
(** ** [expiryFromMins] (src/src/utils.ts) *)

Record ExpiryData := {
  expiryEnabled : bool;
  timeoutMins : Z;
  timeoutMs : Z;
  expiresTime : Z;
  expiresAt : Z   (* [new Date(expireTime).toISOString()]: that instant *)
}.

(** The largest time value a JS [Date] holds; [toISOString] throws a
    [RangeError] beyond it. *)
Definition max_time_value : Z := 8640000000000000.

Inductive cache_error :=
  | InvalidTimeValue      (* RangeError from toISOString *)
  | TimeoutTooLarge.      (* "Timeout cannot be greater than 2147483647ms" *)

Definition expiryFromMins (now timeoutMins : Z) : option ExpiryData :=
  let timeoutMs := timeoutMins * 60000 in
  let expireTime := now + timeoutMs in
  if Z.abs expireTime <=? max_time_value then
    Some {| expiryEnabled := negb (timeoutMins =? 0);
            timeoutMins := timeoutMins;
            timeoutMs := timeoutMs;
            expiresTime := expireTime;
            expiresAt := expireTime |}
  else None.

(* ------------------------------------------------------------------ *)
(** ** [MemoryCache] (src/src/MemoryCache.ts) *)

(** [version] of package.json, stamped as [modelVersion]. *)
Definition version : string := "5.0.0".

Inductive result (A : Type) :=
  | Ok (a : A)
  | Throw (e : cache_error).
Arguments Ok {A} a.
Arguments Throw {A} e.

Section MemoryCache.
Context {V : Type}.

Record CachedItemContainer := {
  value : V;
  expiry : ExpiryData;
  modelVersion : string
}.

(** [cache], [dependencies] and [timers] are the object's three records.
    A Node timer is a handle: [pending] holds the armed timers (key and
    firing time) by handle, [timers] the handle last stored for a key. *)
Record MemoryCache := {
  cache : gmap string CachedItemContainer;
  dependencies : gmap string (list jsval);
  timers : gmap string nat;
  pending : gmap nat (string * Z);
  next_handle : nat
}.

Definition empty_memory_cache : MemoryCache :=
  {| cache := ∅; dependencies := ∅; timers := ∅; pending := ∅; next_handle := 0 |}.

Definition with_dependencies (s : MemoryCache) d : MemoryCache :=
  {| cache := cache s; dependencies := d; timers := timers s;
     pending := pending s; next_handle := next_handle s |}.

Definition with_cache (s : MemoryCache) c : MemoryCache :=
  {| cache := c; dependencies := dependencies s; timers := timers s;
     pending := pending s; next_handle := next_handle s |}.

(** [setTimeout] runs a delay below 1 ms (or above 2^31-1 ms) after 1 ms. *)
Definition timer_delay (ms : Z) : Z :=
  if (ms <? 1) || (2147483647 <? ms) then 1 else ms.

Definition remove (key : string) (s : MemoryCache) : MemoryCache * bool :=
  let s1 :=
    match timers s !! key with
    | Some h =>
        {| cache := cache s; dependencies := dependencies s;
           timers := delete key (timers s);
           pending := delete h (pending s); next_handle := next_handle s |}
    | None => s
    end in
  ({| cache := delete key (cache s1); dependencies := delete key (dependencies s1);
      timers := timers s1; pending := pending s1; next_handle := next_handle s1 |},
   true).

Definition dependenciesChanged (key : string) (depArrayValues : list jsval)
    (s : MemoryCache) : MemoryCache * bool :=
  match dependencies s !! key with
  | None => (s, false)
  | Some deps =>
      if String.eqb (stringify_deps deps) (stringify_deps depArrayValues)
      then (s, false)
      else (with_dependencies s (<[key := depArrayValues]> (dependencies s)), true)
  end.

Definition get (now : Z) (key : string) (depArrayValues : list jsval)
    (s : MemoryCache) : MemoryCache * option CachedItemContainer :=
  let item := cache s !! key in
  let '(s1, checkDepsChanged) := dependenciesChanged key depArrayValues s in
  if checkDepsChanged then ((remove key s1).1, None)
  else
    match item with
    | None => ((remove key s1).1, None)
    | Some it =>
        if (0 <? expiresTime (expiry it)) && (expiresTime (expiry it) <=? now)
        then ((remove key s1).1, None)
        else (s1, Some it)
    end.

Definition set (now : Z) (key : string) (v : V) (timeoutMins : Z)
    (deps : list jsval) (s : MemoryCache)
    : MemoryCache * result CachedItemContainer :=
  let s1 := with_dependencies s (<[key := deps]> (dependencies s)) in
  match expiryFromMins now timeoutMins with
  | None => (s1, Throw InvalidTimeValue)
  | Some e =>
      let item := {| value := v; expiry := e; modelVersion := version |} in
      if timeoutMins =? 0 then (with_cache s1 (<[key := item]> (cache s1)), Ok item)
      else if 2147483647 <? timeoutMs e then (s1, Throw TimeoutTooLarge)
      else
        let h := next_handle s1 in
        ({| cache := <[key := item]> (cache s1);
            dependencies := dependencies s1;
            timers := <[key := h]> (timers s1);
            pending := <[h := (key, now + timer_delay (timeoutMs e))]> (pending s1);
            next_handle := S h |},
         Ok item)
  end.

Definition has (key : string) (s : MemoryCache) : bool :=
  bool_decide (is_Some (cache s !! key)).

(** The callback of the timer with handle [h], run at time [now]:
    [if (this.cache[key]) this.remove(key)]. The handle stays in [timers]. *)
Definition fire (now : Z) (h : nat) (s : MemoryCache) : MemoryCache :=
  match pending s !! h with
  | Some (key, at_) =>
      if at_ <=? now then
        let s1 := {| cache := cache s; dependencies := dependencies s;
                     timers := timers s; pending := delete h (pending s);
                     next_handle := next_handle s |} in
        if bool_decide (is_Some (cache s1 !! key)) then (remove key s1).1 else s1
      else s
  | None => s
  end.

End MemoryCache.
Arguments CachedItemContainer : clear implicits.
Arguments MemoryCache : clear implicits.

(* ------------------------------------------------------------------ *)
(** ** [RedisCache.set] (src/src/RedisCache.ts)

    The Redis client is its connection flags and the stored records. A
    record is the string [client.set] was given; it is represented by the
    value it serializes ([{value}] or the whole container) and its [PXAT]. *)

Section RedisCache.
Context {V : Type}.

Inductive redis_payload :=
  | PlainValue (v : V)                          (* JSON.stringify({value}) *)
  | Container (c : CachedItemContainer V).      (* JSON.stringify(cachedItemContainer) *)

Record RedisRecord := { payload : redis_payload; pxat : option Z }.

Record RedisCache := {
  isOpen : bool;
  isReady : bool;
  store : gmap string RedisRecord;
  rdependencies : gmap string (list jsval)
}.

(** Redis answers [SET ... PXAT t] with an error when [t <= 0]; the
    awaited [client.set] then rejects. *)
Definition redis_set (key : string) (r : RedisRecord) (s : RedisCache)
    : RedisCache * result unit :=
  match pxat r with
  | Some t => if t <=? 0 then (s, Throw InvalidTimeValue) else
      ({| isOpen := isOpen s; isReady := isReady s; store := <[key := r]> (store s);
          rdependencies := rdependencies s |}, Ok tt)
  | None =>
      ({| isOpen := isOpen s; isReady := isReady s; store := <[key := r]> (store s);
          rdependencies := rdependencies s |}, Ok tt)
  end.

Definition redis_cache_set (now : Z) (key : string) (v : V) (timeoutMins : Z)
    (deps : list jsval) (s : RedisCache) : RedisCache * result bool :=
  if negb (isOpen s && isReady s) then (s, Ok false)
  else
    let s1 := {| isOpen := isOpen s; isReady := isReady s; store := store s;
                 rdependencies := <[key := deps]> (rdependencies s) |} in
    if timeoutMins =? 0 then
      let '(s2, r) := redis_set key {| payload := PlainValue v; pxat := None |} s1 in
      (s2, match r with Ok _ => Ok true | Throw e => Throw e end)
    else
      match expiryFromMins now timeoutMins with
      | None => (s1, Throw InvalidTimeValue)
      | Some e =>
          let c := {| value := v; expiry := e; modelVersion := version |} in
          let '(s2, r) := redis_set key {| payload := Container c;
                                           pxat := Some (expiresTime e) |} s1 in
          (s2, match r with Ok _ => Ok true | Throw e => Throw e end)
      end.

(** [RedisCache.dependenciesChanged]: the same check on its own record. *)
Definition redis_dependenciesChanged (key : string) (depArrayValues : list jsval)
    (s : RedisCache) : RedisCache * bool :=
  match rdependencies s !! key with
  | None => (s, false)
  | Some deps =>
      if String.eqb (stringify_deps deps) (stringify_deps depArrayValues)
      then (s, false)
      else ({| isOpen := isOpen s; isReady := isReady s; store := store s;
               rdependencies := <[key := depArrayValues]> (rdependencies s) |}, true)
  end.

End RedisCache.
Arguments RedisCache : clear implicits.

(* ------------------------------------------------------------------ *)
(** ** The pooling protocol of [expressCache] (src/src/expressCache.ts)

    One JS event loop runs the requests' handlers; each event below is one
    synchronous segment of the code, which runs to its end without being
    interleaved:
    - [Arrive r key t]: request [r], whose cache read for [key] missed,
      resumes after its last [await cache.get] at time [t] and runs lines
      179-224 (join the pool, or become the leader and call [next()]);
    - [Send r resp m]: the leader's route handler calls the overridden
      [res.send(body)] with a string body, having set [resp]'s status and
      headers; the synchronous part of [storeCache] runs, then
      [res.set("x-cache-result", "MISS")] and Express's original [send].
      [m] tells whether the leader's request is a GET or HEAD whose
      conditional headers ([If-None-Match], [If-Modified-Since]) match the
      response, so that Express's [send] sets the status to 304. Only the
      string-body path of [res.send] is embedded: a [Buffer] or an object
      body ([res.json] included) is not;
    - [StoreDone r o]: the awaited [cache.set] of the leader's [storeCache]
      settles with [o]: a truthy value, a falsy one, or a rejection;
    - [Timeout r t]: waiter [r]'s [requestTimeout] callback runs at [t].

    The module-level [emitter] is a registry of the listeners registered
    per event name ([emitter._eventListeners[key]["*"]]): [once] appends
    one, [emit] calls the listeners registered for the name in order and
    drops them. [once] registers a wrapper around the handler it is given,
    so [emitter.off(cacheKey, respondHandler)], which looks for the handler
    itself, removes nothing. A request's listener and timer are named by
    the request; [setTimeout] clamps the delay as [timer_delay] does.

    [sent] holds, for each request, the status, headers and body its
    response object has when the code hands it to Express's [send]. Of
    what Express's [send] then does to the leader's response object, only
    the 304 status is embedded: the headers Express adds or removes (ETag,
    Content-Length, a default Content-Type) are left out. *)

Record Resp := {
  status : Z;
  headers : list (string * string);
  body : string
}.

(** [res.set(field, value)]: a header already present keeps its place. *)
Fixpoint hset (h : list (string * string)) (k v : string) : list (string * string) :=
  match h with
  | [] => [(k, v)]
  | (k', v') :: rest => if String.eqb k' k then (k, v) :: rest else (k', v') :: hset rest k v
  end.

(** [res.set(object)] sets each property in order. *)
Definition hset_all (h : list (string * string)) (l : list (string * string)) :=
  fold_left (fun acc kv => hset acc kv.1 kv.2) l h.

(** The response [respondWithCachedResponse(cachedResponse, res, v)] sends
    on a response object with no header set yet. *)
Definition cached_response (final : Resp) (resultHeaderValue : string) : Resp :=
  {| status := status final;
     headers := hset (hset (hset_all [] (headers final)) "content-encoding" "identity")
                  "x-cache-result" resultHeaderValue;
     body := body final |}.

(** The body of the waiter's 504, serialized by Express's [res.send(object)]. *)
Definition timeout_body : string :=
  default "" (stringify (JObj [("isErr", JBool true); ("status", JNum 504);
    ("err", JObj [("key", JStr "REQUEST_TIMEOUT");
                  ("msg", JStr "Request timed out waiting for the route handler to respond")])])).

Definition timeout_response : Resp :=
  {| status := 504; headers := []; body := timeout_body |}.

Inductive Phase :=
  | Leading (key : string)                  (* next() called, res.send not yet *)
  | Storing (key : string) (res : Resp)     (* awaiting cache.set; res as sent *)
  | Waiting (key : string)                  (* listener and timer registered *)
  | Finished.

Record MW := {
  inFlight : gset string;
  listeners : gmap string (list nat);
  waitTimers : gmap nat Z;       (* armed requestTimeout: firing time *)
  phase : gmap nat Phase;
  sent : gmap nat Resp           (* the response each request has sent *)
}.

(** The leader's response as it is handed to Express's [send]: the route's
    status and headers, [res.set("x-cache-result", "MISS")], the body. *)
Definition miss_response (resp : Resp) : Resp :=
  {| status := status resp;
     headers := hset (headers resp) "x-cache-result" "MISS";
     body := body resp |}.

(** [req.fresh] in Express's [send]: a 2xx or 304 status of a request
    whose conditional headers match the response turns into 304. *)
Definition express_send_status (conditionalMatch : bool) (statusCode : Z) : Z :=
  if conditionalMatch &&
     (((200 <=? statusCode) && (statusCode <? 300)) || (statusCode =? 304))
  then 304 else statusCode.

(** The leader's response object after Express's [send]. *)
Definition after_send (conditionalMatch : bool) (res : Resp) : Resp :=
  {| status := express_send_status conditionalMatch (status res);
     headers := headers res; body := body res |}.

Definition empty_mw : MW :=
  {| inFlight := ∅; listeners := ∅; waitTimers := ∅; phase := ∅; sent := ∅ |}.

Inductive SetOutcome := SetTruthy | SetFalsy | SetRejected.

Inductive Event :=
  | Arrive (r : nat) (key : string) (t : Z)
  | Send (r : nat) (resp : Resp) (conditionalMatch : bool)
  | StoreDone (r : nat) (o : SetOutcome)
  | Timeout (r : nat) (t : Z).

Definition pool_of (s : MW) (key : string) : list nat :=
  default [] (listeners s !! key).

(** [respondWithCachedResponse] on request [r]'s response object: nothing
    when its headers were already sent. *)
Definition respond (final : Resp) (v : string) (snt : gmap nat Resp) (r : nat)
    : gmap nat Resp :=
  match snt !! r with
  | Some _ => snt
  | None => <[r := cached_response final v]> snt
  end.

(** [emitter.emit(key, final)]: each [respondHandler] clears its timer and
    responds with [final]; the [once] listeners are dropped. *)
Definition emit (key : string) (final : Resp) (s : MW) : MW :=
  let ws := pool_of s key in
  {| inFlight := inFlight s;
     listeners := delete key (listeners s);
     waitTimers := fold_left (fun m r => delete r m) ws (waitTimers s);
     phase := fold_left (fun m r => <[r := Finished]> m) ws (phase s);
     sent := fold_left (respond final "POOLED") ws (sent s) |}.

Definition with_phase (s : MW) (ph : gmap nat Phase) : MW :=
  {| inFlight := inFlight s; listeners := listeners s; waitTimers := waitTimers s;
     phase := ph; sent := sent s |}.

Definition with_phase_sent (s : MW) (ph : gmap nat Phase) (snt : gmap nat Resp) : MW :=
  {| inFlight := inFlight s; listeners := listeners s; waitTimers := waitTimers s;
     phase := ph; sent := snt |}.

Section Middleware.
Variable pooling : bool.
Variable requestTimeoutMs : Z.
(** [shouldSetCache(req, res) === true], read off the leader's response. *)
Variable shouldSetCache : Resp -> bool.

Definition requestHasPool (key : string) (s : MW) : bool :=
  pooling && bool_decide (key ∈ inFlight s).

Definition resolvePool (key : string) (final : Resp) (s : MW) : MW :=
  let s1 := if pooling then
              {| inFlight := inFlight s ∖ {[key]}; listeners := listeners s;
                 waitTimers := waitTimers s; phase := phase s; sent := sent s |}
            else s in
  emit key final s1.

Definition step (s : MW) (ev : Event) : MW :=
  match ev with
  | Arrive r key t =>
      match phase s !! r with
      | Some _ => s
      | None =>
          if requestHasPool key s then
            {| inFlight := inFlight s;
               listeners := <[key := pool_of s key ++ [r]]> (listeners s);
               waitTimers := <[r := t + timer_delay requestTimeoutMs]> (waitTimers s);
               phase := <[r := Waiting key]> (phase s);
               sent := sent s |}
          else
            {| inFlight := if pooling then {[key]} ∪ inFlight s else inFlight s;
               listeners := listeners s; waitTimers := waitTimers s;
               phase := <[r := Leading key]> (phase s);
               sent := sent s |}
      end
  | Send r resp m =>
      match phase s !! r with
      | Some (Leading key) =>
          let res := miss_response resp in
          if shouldSetCache resp then
            (* the pool is resolved once [cache.set] settles, after the
               original [send]: [res.statusCode] is read as Express left it *)
            with_phase_sent s (<[r := Storing key (after_send m res)]> (phase s))
              (<[r := res]> (sent s))
          else
            let s1 := resolvePool key resp s in
            with_phase_sent s1 (<[r := Finished]> (phase s1)) (<[r := res]> (sent s1))
      | _ => s
      end
  | StoreDone r o =>
      match phase s !! r with
      | Some (Storing key res) =>
          match o with
          | SetRejected => with_phase s (<[r := Finished]> (phase s))
          | _ => let s1 := resolvePool key res s in
                 with_phase s1 (<[r := Finished]> (phase s1))
          end
      | _ => s
      end
  | Timeout r t =>
      match phase s !! r, waitTimers s !! r with
      | Some (Waiting key), Some at_ =>
          if at_ <=? t then
            (* [emitter.off] finds no listener to remove: the waiter's
               wrapper stays registered for [key] *)
            {| inFlight := inFlight s;
               listeners := listeners s;
               waitTimers := delete r (waitTimers s);
               phase := <[r := Finished]> (phase s);
               sent := <[r := timeout_response]> (sent s) |}
          else s
      | _, _ => s
      end
  end.

Definition run (s : MW) (evs : list Event) : MW := fold_left step evs s.

End Middleware.

(** A request that has sent its response is past its decision: it is
    neither undecided, leading nor waiting. *)
Definition sent_closed (s : MW) : Prop :=
  forall r, is_Some (sent s !! r) ->
  match phase s !! r with Some (Storing _ _) | Some Finished => True | _ => False end.

(** The miss reason a request's decision step pushes (lines 179-185):
    [getPoolSize(cacheKey) + 1] counts the listeners registered for the
    key. *)
Definition pool_miss_reason (pooling : bool) (key : string) (s : MW) : string :=
  if requestHasPool pooling key s
  then "RESPONSE_POOLED: " +:+ pretty (Z.of_nat (length (pool_of s key)) + 1)
  else "RESPONSE_NOT_IN_CACHE".




(** The default [shouldSetCache]: a 2xx or 3xx status. *)
Definition default_shouldSetCache (resp : Resp) : bool :=
  (200 <=? status resp) && (status resp <? 400).

(** The default [requestTimeoutMs]. *)
Definition default_requestTimeoutMs : Z := 20000.

(** Requests whose cache reads for [key] missed, running their decision
    step in this order. *)
Definition arrivals (key : string) (l : list (nat * Z)) : list Event :=
  map (fun '(r, t) => Arrive r key t) l.

(** The leader's response completing: [res.send] on a request without
    matching conditional headers, then the settling of [cache.set] when
    the write policy allowed the store. *)
Definition leader_completion (shouldSetCache : Resp -> bool) (r : nat) (resp : Resp)
    (o : SetOutcome) : list Event :=
  Send r resp false :: (if shouldSetCache resp then [StoreDone r o] else []).

(** How the awaited [cache.set] of [storeCache] settles for a store:
    [MemoryCache.set] resolves with the container or rejects;
    [RedisCache.set] resolves with a boolean or rejects. *)
Definition memory_set_outcome {A} (r : result A) : SetOutcome :=
  match r with Ok _ => SetTruthy | Throw _ => SetRejected end.

Definition redis_set_outcome (r : result bool) : SetOutcome :=
  match r with Ok true => SetTruthy | Ok false => SetFalsy | Throw _ => SetRejected end.

(* ------------------------------------------------------------------ *)
(** ** Concrete inputs *)

(** A route handler's response, as [storeCache] would cache it. *)
Definition sample_response : Resp :=
  {| status := 200; headers := [("content-type", "text/html")]; body := "x" |}.

Definition fresh_memory_cache : MemoryCache Resp := empty_memory_cache.

Definition connected_redis : RedisCache Resp :=
  {| isOpen := true; isReady := true; store := ∅; rdependencies := ∅ |}.


(* ------------------------------------------------------------------ *)
(** ** [RedisCache.get], [remove] and [has] (src/src/RedisCache.ts)

    Redis drops a key whose [PXAT] instant has passed: [keyIsExpired] is
    [now > when]; [now] is the server's clock. [client.get] answers the
    string [set] stored, and [JSON.parse] gives back the object that was
    serialized: [{value}] or the container (a non-null object, so the
    [!item] branch is not taken). [this.timers] is never assigned, so the
    [clearTimeout] branch of [remove] never runs. *)

Section RedisCacheRead.
Context {V : Type}.

Definition redis_live (now : Z) (r : @RedisRecord V) : bool :=
  match pxat r with Some t => now <=? t | None => true end.

Definition redis_remove (key : string) (s : RedisCache V) : RedisCache V * bool :=
  let s1 := {| isOpen := isOpen s; isReady := isReady s; store := store s;
               rdependencies := delete key (rdependencies s) |} in
  if negb (isOpen s1 && isReady s1) then (s1, false)
  else ({| isOpen := isOpen s1; isReady := isReady s1; store := delete key (store s1);
           rdependencies := rdependencies s1 |}, true).

Definition redis_get (now : Z) (key : string) (depArrayValues : list jsval)
    (s : RedisCache V) : RedisCache V * option (@redis_payload V) :=
  if negb (isOpen s && isReady s) then (s, None)
  else
    match store s !! key with
    | Some r =>
        if redis_live now r then
          let '(s1, checkDepsChanged) := redis_dependenciesChanged key depArrayValues s in
          if checkDepsChanged then ((redis_remove key s1).1, None)
          else (s1, Some (payload r))
        else (s, None)
    | None => (s, None)
    end.

(** [client.exists(key) === 1], asked only when the client is open. *)
Definition redis_has (now : Z) (key : string) (s : RedisCache V) : bool :=
  isOpen s && match store s !! key with Some r => redis_live now r | None => false end.

(** The [.value] the middleware reads off what [get] returned. *)
Definition payload_value (p : @redis_payload V) : V :=
  match p with PlainValue v => v | Container c => value c end.

End RedisCacheRead.

(* ------------------------------------------------------------------ *)
(** ** [hashString] and the default [provideCacheKey] (src/src/expressCache.ts)

    The string is the list of its UTF-16 code units ([charCodeAt]). [x | 0]
    and the operands of [<<] are [ToInt32]; the other operations are exact
    in doubles at these magnitudes. *)

Definition to_int32 (x : Z) : Z := (x + 2 ^ 31) mod 2 ^ 32 - 2 ^ 31.

Definition hash_step (hash charCode : Z) : Z :=
  to_int32 (to_int32 (Z.shiftl hash 5) - hash + charCode).

Definition hashString (str : list Z) : string :=
  pretty (fold_left hash_step str 0 + 2147483647 + 1).

Definition provideCacheKey (cacheUrl : list Z) : string :=
  "c_" +:+ hashString cacheUrl.

(** The code units of a string of ASCII characters. *)
Fixpoint code_units (s : string) : list Z :=
  match s with
  | EmptyString => []
  | String c rest => Z.of_nat (nat_of_ascii c) :: code_units rest
  end.

(* ------------------------------------------------------------------ *)
(** ** The request's cache read (lines 133-177 of [expressCache])

    [hasPool] is [requestHasPool(cacheKey, options)] when the request
    starts, [noPoolHeader] is [req.get("x-cache-do-not-pool") === "true"],
    and [cache_get] is [cache.get] followed by reading [.value] of the
    (always truthy) container it answers. [FrontHit v] is
    [respondWithCachedResponse(v, res)] ("HIT"); [FrontMiss] carries the
    [missReasons] pushed so far and goes on to the pooling decision. *)

Inductive ShouldGet := GetTrue | GetReason (reason : string) | GetOther.

(** The default [shouldGetCache], from the request's [Cache-Control]. *)
Definition default_shouldGetCache (cacheControl : option string) : ShouldGet :=
  if decide (cacheControl = Some "no-cache") then GetReason "CACHE_CONTROL_HEADER"
  else GetTrue.

Inductive Front := FrontHit (v : Resp) | FrontMiss (missReasons : list string).

Section Front.
Context {C : Type}.
Variable cache_get : string -> list jsval -> C -> C * option Resp.

Definition front (hasPool noPoolHeader : bool) (shouldGetCacheResult : ShouldGet)
    (cacheKey : string) (depArrayValues : list jsval) (c : C) : C * Front :=
  let '(c1, tmp) :=
    if noPoolHeader && hasPool then cache_get cacheKey depArrayValues c else (c, None) in
  match tmp with
  | Some v => (c1, FrontHit v)
  | None =>
      let '(c2, cached, missReasons) :=
        match shouldGetCacheResult with
        | GetTrue => let '(c2, r) := cache_get cacheKey depArrayValues c1 in (c2, r, [])
        | GetReason r => (c1, None, [r])
        | GetOther => (c1, None, ["SHOULD_GET_CACHE_FALSE"])
        end in
      match cached with
      | Some v => (c2, FrontHit v)
      | None => (c2, FrontMiss missReasons)
      end
  end.

End Front.

Definition memory_cache_get (now : Z) (key : string) (deps : list jsval)
    (s : MemoryCache Resp) : MemoryCache Resp * option Resp :=
  let '(s1, r) := get now key deps s in (s1, option_map value r).

Definition redis_cache_get (now : Z) (key : string) (deps : list jsval)
    (s : RedisCache Resp) : RedisCache Resp * option Resp :=
  let '(s1, r) := redis_get now key deps s in (s1, option_map payload_value r).

(* ------------------------------------------------------------------ *)
(** ** The cache events of the leader's [res.send] ([storeCache] and its [.then])

    An event is its name and its [reason], if the data has one.
    [poolSize] is [getPoolSize(cacheKey)] when [resolvePool] runs; a
    rejected [cache.set] rejects [storeCache]'s promise, so its [.then]
    callback never runs. *)

Inductive ShouldSet := SetTrue | SetReason (reason : string) | SetOther.

Definition cache_event : Type := string * option string.

Definition pool_send_events (pooling : bool) (poolSize : nat) : list cache_event :=
  if pooling then [("POOL_SEND", Some ("POOL_SIZE: " +:+ pretty (Z.of_nat poolSize)))] else [].

(** The events [storeCache] raises and how its promise settles:
    [Some didStore], or [None] when it rejects. *)
Definition storeCache_events (pooling : bool) (statusCode : Z) (shouldCacheResult : ShouldSet)
    (o : SetOutcome) (poolSize : nat) : list cache_event * option bool :=
  match shouldCacheResult with
  | SetReason r =>
      (pool_send_events pooling poolSize ++
         [("NOT_STORED", Some ("STATUS_CODE (" +:+ pretty statusCode +:+ "); " +:+ r))],
       Some false)
  | SetOther =>
      (pool_send_events pooling poolSize ++
         [("NOT_STORED", Some ("STATUS_CODE (" +:+ pretty statusCode +:+ ")"))],
       Some false)
  | SetTrue =>
      match o with
      | SetRejected => ([], None)
      | SetTruthy => ([("STORED", None)] ++ pool_send_events pooling poolSize, Some true)
      | SetFalsy => ([("NOT_STORED", Some "CACHE_UNAVAILABLE")] ++
                       pool_send_events pooling poolSize, Some true)
      end
  end.

Definition send_events (pooling : bool) (statusCode : Z) (shouldCacheResult : ShouldSet)
    (o : SetOutcome) (poolSize : nat) : list cache_event :=
  let '(evs, r) := storeCache_events pooling statusCode shouldCacheResult o poolSize in
  evs ++ match r with
         | Some true => [("FINISHED_CACHE_MISS_AND_STORED", None)]
         | Some false => [("FINISHED_CACHE_MISS_AND_NOT_STORED", None)]
         | None => []
         end.

(** Facts on the serialization: string append, the escaping and the
    first property an object serializes. *)
Lemma sapp_nil_l (b : string) : "" +:+ b = b.
Proof. reflexivity. Qed.















(* ================================================================== *)
(** * Properties of [MemoryCache] *)

Section MemoryCacheFacts.
Context {V : Type}.
Implicit Types (s : MemoryCache V) (v : V) (key : string) (deps : list jsval).

Lemma set_dependencies now key v mins deps s :
  dependencies (set now key v mins deps s).1 = <[key := deps]> (dependencies s).
Proof.
  unfold set. destruct (expiryFromMins now mins) as [e|]; [|done].
  destruct (mins =? 0); [done|]. by destruct (2147483647 <? timeoutMs e).
Qed.

Lemma remove_cache key s : cache (remove key s).1 = delete key (cache s).
Proof. unfold remove. by destruct (timers s !! key). Qed.

Lemma remove_dependencies key s :
  dependencies (remove key s).1 = delete key (dependencies s).
Proof. unfold remove. by destruct (timers s !! key). Qed.

Lemma has_remove key s : has key (remove key s).1 = false.
Proof. unfold has. rewrite remove_cache, lookup_delete_eq. by apply bool_decide_eq_false. Qed.

(** A snapshot that serializes like the stored one is never a change. *)
Lemma dependenciesChanged_same key deps deps' s :
  dependencies s !! key = Some deps' ->
  stringify_deps deps' = stringify_deps deps ->
  dependenciesChanged key deps s = (s, false).
Proof.
  intros Hd Hs. unfold dependenciesChanged. rewrite Hd, Hs.
  by rewrite String.eqb_refl.
Qed.

Lemma dependenciesChanged_differs key deps deps' s :
  dependencies s !! key = Some deps' ->
  stringify_deps deps' <> stringify_deps deps ->
  dependenciesChanged key deps s =
    (with_dependencies s (<[key := deps]> (dependencies s)), true).
Proof.
  intros Hd Hs. unfold dependenciesChanged. rewrite Hd.
  apply String.eqb_neq in Hs. by rewrite Hs.
Qed.

(** A [get] that sees a changed snapshot evicts and answers [null]. *)
Lemma get_changed t key deps deps' s :
  dependencies s !! key = Some deps' ->
  stringify_deps deps' <> stringify_deps deps ->
  get t key deps s =
    ((remove key (with_dependencies s (<[key := deps]> (dependencies s)))).1, None).
Proof.
  intros Hd Hs. unfold get. by rewrite (dependenciesChanged_differs _ _ _ _ Hd Hs).
Qed.

(** With a positive TTL, [set] followed by [get] with the same snapshot
    inside the TTL window returns the stored container. *)
Lemma set_get_within_ttl now t key v mins deps s :
  0 < mins -> mins * 60000 <= 2147483647 -> 0 < now -> now <= t < now + mins * 60000 ->
  now + mins * 60000 <= max_time_value ->
  exists it, (set now key v mins deps s).2 = Ok it /\
             (get t key deps (set now key v mins deps s).1).2 = Some it /\
             value it = v.
Proof.
  intros Hm Hmax Hn Ht Hd. unfold set, expiryFromMins.
  rewrite (proj2 (Z.leb_le _ _)) by lia.
  rewrite (proj2 (Z.eqb_neq _ _)) by lia. simpl.
  rewrite (proj2 (Z.ltb_ge _ _)) by lia.
  eexists; split; [reflexivity|]. split; [|reflexivity].
  unfold get. simpl. rewrite lookup_insert_eq.
  rewrite (dependenciesChanged_same key deps deps); [| simpl; by rewrite lookup_insert_eq | done].
  simpl. rewrite (proj2 (Z.leb_gt _ _)) by lia.
  by rewrite andb_false_r.
Qed.

End MemoryCacheFacts.

(* ------------------------------------------------------------------ *)
(** ** Claims about [MemoryCache] and [RedisCache] *)

(** C2 (code_bug): a [set] with TTL 0 ("no expiry") followed at once by a
    [get] with the same snapshot returns [null], not the stored value:
    [expiryFromMins(0)] stamps [expiresTime = Date.now()] (never 0), so the
    guard [expiresTime > 0 && expiresTime <= Date.now()] of [get] holds. *)
Theorem C2_set_get_ttl0_misses :
  let s1 := (set 1000 "k" sample_response 0 [] fresh_memory_cache).1 in
  cache s1 !! "k" <> None /\ (get 1000 "k" [] s1).2 = None.
Proof. split; vm_compute; congruence. Qed.

(** C3 (code_bug): an entry stored with TTL 0 is evicted by every later
    [get], even with an unchanged snapshot: [get] answers [null] and [has]
    is false afterwards. *)
Theorem C3_ttl0_entry_evicted_by_get now t key (v : Resp) deps (s : MemoryCache Resp) :
  0 < now -> now <= t -> now <= max_time_value ->
  let s1 := (set now key v 0 deps s).1 in
  (exists it, (set now key v 0 deps s).2 = Ok it /\ cache s1 !! key = Some it /\
              expiryEnabled (expiry it) = false) /\
  (get t key deps s1).2 = None /\ has key (get t key deps s1).1 = false.
Proof.
  intros Hn Ht Hmax s1. subst s1. unfold set, expiryFromMins.
  rewrite Z.mul_0_l, Z.add_0_r, (proj2 (Z.leb_le _ _)) by lia. simpl.
  split; [eexists; split; [reflexivity | split; [by rewrite lookup_insert_eq | reflexivity]]|].
  unfold get. cbn -[remove]. rewrite lookup_insert_eq.
  rewrite (dependenciesChanged_same key deps deps); [| simpl; by rewrite lookup_insert_eq | done].
  cbn -[remove]. rewrite (proj2 (Z.ltb_lt _ _)), (proj2 (Z.leb_le _ _)) by lia. cbn -[remove].
  split; [done | apply has_remove].
Qed.

Lemma C3_ttl0_entry_evicted_by_get_witness :
  0 < 1000 /\ 1000 <= 5000 /\ 1000 <= max_time_value /\
  (get 5000 "k" [] (set 1000 "k" sample_response 0 [] fresh_memory_cache).1).2 = None.
Proof.
  split; [lia|]. split; [lia|]. split; [unfold max_time_value; lia|].
  apply (C3_ttl0_entry_evicted_by_get 1000 5000 "k" sample_response [] fresh_memory_cache);
    unfold max_time_value; lia.
Defined.

(** C4 (corrected): the counterexample. [[undefined]] and [[null]] are
    deep-unequal snapshots, but both serialize to ["[null]"], so the [get]
    inside the TTL returns the entry and [has] stays true. *)
Lemma C4_json_collision_not_evicted :
  [JUndefined] <> [JNull] /\
  let r := get 1000 "k" [JNull] (set 1000 "k" sample_response 1 [JUndefined] fresh_memory_cache).1 in
  r.2 <> None /\ has "k" r.1 = true.
Proof. split; [congruence|]. split; vm_compute; [congruence | reflexivity]. Qed.

(** C4 (amended): for snapshots [D1], [D2] whose [JSON.stringify] forms
    differ, [set(key, v, ttl, D1)] then [get(key, D2)] returns [null] at any
    time, whatever the TTL (and even when [set] rejected after recording
    [D1]), and [has(key)] is false afterwards. *)
Theorem C4_changed_snapshot_evicts now t key (v : Resp) mins D1 D2 (s : MemoryCache Resp) :
  stringify_deps D1 <> stringify_deps D2 ->
  let r := get t key D2 (set now key v mins D1 s).1 in
  r.2 = None /\ has key r.1 = false.
Proof.
  intros Hd r. subst r.
  rewrite (get_changed t key D2 D1); [| by rewrite set_dependencies, lookup_insert_eq | done].
  split; [done | apply has_remove].
Qed.

Lemma C4_changed_snapshot_evicts_witness :
  stringify_deps [JNum 1; JNum 2] <> stringify_deps [JNum 1; JNum 3] /\
  (get 1000 "B" [JNum 1; JNum 3]
     (set 1000 "B" sample_response 0 [JNum 1; JNum 2] fresh_memory_cache).1).2 = None.
Proof.
  assert (H : stringify_deps [JNum 1; JNum 2] <> stringify_deps [JNum 1; JNum 3])
    by (vm_compute; congruence).
  split; [exact H|].
  exact (proj1 (C4_changed_snapshot_evicts 1000 1000 "B" sample_response 0
                  [JNum 1; JNum 2] [JNum 1; JNum 3] fresh_memory_cache H)).
Defined.

(** C8 (corrected): the counterexample. After a [get] with a changed
    snapshot the tracker holds no snapshot for the key: the new one that
    [dependenciesChanged] wrote is deleted again by [remove]. *)
Lemma C8_tracker_not_updated :
  dependencies (get 1000 "k" [JNum 2]
    (set 1000 "k" sample_response 1 [JNum 1] fresh_memory_cache).1).1 !! "k"
  <> Some [JNum 2].
Proof. vm_compute. congruence. Qed.

(** C8 (amended): a [get] whose snapshot serializes differently from the
    stored one evicts the entry and clears the tracker's record for the
    key; the next [get] is then a first observation (never flagged as
    changed), and a [set] under the new snapshot records it, so a read
    under that snapshot is not flagged as changed. *)
Theorem C8_changed_snapshot_clears_tracker t key D1 D2 (s : MemoryCache Resp) :
  dependencies s !! key = Some D1 -> stringify_deps D1 <> stringify_deps D2 ->
  let s2 := (get t key D2 s).1 in
  (get t key D2 s).2 = None /\
  dependencies s2 !! key = None /\ cache s2 !! key = None /\
  (forall D3, (dependenciesChanged key D3 s2).2 = false) /\
  (forall now (v : Resp) mins,
     (dependenciesChanged key D2 (set now key v mins D2 s2).1).2 = false).
Proof.
  intros Hd Hs s2. subst s2. rewrite (get_changed t key D2 D1 s Hd Hs). cbn [fst snd].
  split; [done|].
  split; [by rewrite remove_dependencies, lookup_delete_eq|].
  split; [by rewrite remove_cache, lookup_delete_eq|].
  split.
  - intros D3. unfold dependenciesChanged. by rewrite remove_dependencies, lookup_delete_eq.
  - intros now v mins.
    rewrite (dependenciesChanged_same key D2 D2); [done | | done].
    by rewrite set_dependencies, lookup_insert_eq.
Qed.

Lemma C8_changed_snapshot_clears_tracker_witness :
  let s := (set 1000 "k" sample_response 1 [JNum 1] fresh_memory_cache).1 in
  dependencies s !! "k" = Some [JNum 1] /\
  stringify_deps [JNum 1] <> stringify_deps [JNum 2] /\
  dependencies (get 1000 "k" [JNum 2] s).1 !! "k" = None.
Proof.
  intros s.
  assert (H1 : dependencies s !! "k" = Some [JNum 1]) by reflexivity.
  assert (H2 : stringify_deps [JNum 1] <> stringify_deps [JNum 2]) by (vm_compute; congruence).
  split; [exact H1|]. split; [exact H2|].
  exact (proj1 (proj2 (C8_changed_snapshot_clears_tracker 1000 "k" [JNum 1] [JNum 2] s H1 H2))).
Defined.




(** C10: when [MemoryCache.set] raises the TTL-range error (a non-zero
    [timeoutMins] whose [timeoutMs] exceeds 2147483647, with a valid expiry
    instant), no entry is written or replaced and no timer is armed, but the
    key's dependency snapshot has already been overwritten. *)
Theorem C10_range_error_overwrites_only_dependencies now key (v : Resp) mins deps
    (s : MemoryCache Resp) :
  mins <> 0 -> 2147483647 < mins * 60000 -> Z.abs (now + mins * 60000) <= max_time_value ->
  let r := set now key v mins deps s in
  r.2 = Throw TimeoutTooLarge /\
  cache r.1 = cache s /\ timers r.1 = timers s /\ pending r.1 = pending s /\
  next_handle r.1 = next_handle s /\
  dependencies r.1 = <[key := deps]> (dependencies s).
Proof.
  intros Hm Hms Hd r. subst r. unfold set, expiryFromMins.
  rewrite (proj2 (Z.leb_le _ _)) by lia.
  rewrite (proj2 (Z.eqb_neq _ _)) by lia. cbn -[Z.mul].
  rewrite (proj2 (Z.ltb_lt _ _)) by lia.
  repeat split.
Qed.

Lemma C10_range_error_overwrites_only_dependencies_witness :
  let r := set 1000 "k" sample_response 40000 [JNum 2]
             (set 1000 "k" sample_response 0 [JNum 1] fresh_memory_cache).1 in
  r.2 = Throw TimeoutTooLarge /\
  dependencies r.1 !! "k" = Some [JNum 2] /\
  option_map value (cache r.1 !! "k") = Some sample_response.
Proof.
  intros r.
  destruct (C10_range_error_overwrites_only_dependencies 1000 "k" sample_response 40000 [JNum 2]
              (set 1000 "k" sample_response 0 [JNum 1] fresh_memory_cache).1)
    as (H1 & H2 & _ & _ & _ & H6); [lia | lia | unfold max_time_value; lia |].
  split; [exact H1|]. split; [subst r; rewrite H6; apply lookup_insert_eq|].
  subst r. rewrite H2. reflexivity.
Defined.

(** C7 (corrected): the counterexample. [RedisCache.set] with a TTL of
    40000 minutes (2400000000 ms, beyond the 32-bit timer range) on a
    connected client raises nothing: it stores the entry and resolves
    [true]. *)
Lemma C7_redis_accepts_large_ttl :
  2147483647 < 40000 * 60000 /\
  (redis_cache_set 1000 "k" sample_response 40000 [] connected_redis).2 = Ok true.
Proof. split; [lia | reflexivity]. Qed.

(** C7 (amended): [MemoryCache.set] raises for every non-zero
    [timeoutMins] whose [timeoutMs] exceeds 2147483647 (the range error, or
    a RangeError when the expiry instant is no valid Date); [RedisCache.set]
    has no such check: with a connected client and a valid future expiry
    instant it stores the entry with [PXAT] at that instant and resolves
    [true]. *)
Theorem C7_memory_rejects_redis_stores :
  (forall now key (v : Resp) mins deps (s : MemoryCache Resp),
     mins <> 0 -> 2147483647 < mins * 60000 ->
     exists e, (set now key v mins deps s).2 = Throw e) /\
  (forall now key (v : Resp) mins deps (r : RedisCache Resp),
     isOpen r = true -> isReady r = true -> mins <> 0 ->
     0 < now + mins * 60000 <= max_time_value ->
     (redis_cache_set now key v mins deps r).2 = Ok true /\
     exists c, store (redis_cache_set now key v mins deps r).1 !! key =
               Some {| payload := Container c; pxat := Some (now + mins * 60000) |}).
Proof.
  split.
  - intros now key v mins deps s Hm Hms. unfold set.
    destruct (expiryFromMins now mins) as [e|] eqn:He; [|eauto].
    rewrite (proj2 (Z.eqb_neq _ _)) by lia.
    unfold expiryFromMins in He.
    destruct (Z.abs (now + mins * 60000) <=? max_time_value); [|discriminate].
    injection He as <-. cbn -[Z.mul]. rewrite (proj2 (Z.ltb_lt _ _)) by lia. eauto.
  - intros now key v mins deps r Ho Hr Hm Hd. unfold redis_cache_set.
    rewrite Ho, Hr. cbn -[Z.mul expiryFromMins].
    rewrite (proj2 (Z.eqb_neq _ _)) by lia. unfold expiryFromMins.
    rewrite (proj2 (Z.leb_le _ _)) by lia. unfold redis_set. cbn -[Z.mul Z.add].
    rewrite (proj2 (Z.leb_gt _ _)) by lia. cbn -[Z.mul Z.add].
    split; [done|]. eexists. apply lookup_insert_eq.
Qed.

Lemma C7_memory_rejects_redis_stores_witness :
  (exists e, (set 1000 "k" sample_response 40000 [] fresh_memory_cache).2 = Throw e) /\
  (redis_cache_set 1000 "k" sample_response 40000 [] connected_redis).2 = Ok true.
Proof.
  split.
  - apply (proj1 C7_memory_rejects_redis_stores); lia.
  - apply (proj2 C7_memory_rejects_redis_stores); [reflexivity | reflexivity | lia |].
    unfold max_time_value; lia.
Defined.

(* ================================================================== *)
(** * Properties of the pooling protocol *)

Section MiddlewareFacts.
Variable pooling : bool.
Variable tmo : Z.
Variable ssc : Resp -> bool.

Lemma run_cons s e es : run pooling tmo ssc s (e :: es) = run pooling tmo ssc (step pooling tmo ssc s e) es.
Proof. reflexivity. Qed.

Lemma run_app s es1 es2 :
  run pooling tmo ssc s (es1 ++ es2) = run pooling tmo ssc (run pooling tmo ssc s es1) es2.
Proof. unfold run. apply fold_left_app. Qed.


Lemma step_arrive_join s r key t :
  phase s !! r = None -> requestHasPool pooling key s = true ->
  step pooling tmo ssc s (Arrive r key t) =
    {| inFlight := inFlight s;
       listeners := <[key := pool_of s key ++ [r]]> (listeners s);
       waitTimers := <[r := t + timer_delay tmo]> (waitTimers s);
       phase := <[r := Waiting key]> (phase s); sent := sent s |}.
Proof. intros Hp Hh. unfold step. by rewrite Hp, Hh. Qed.




Lemma step_store_rejected s r key res :
  phase s !! r = Some (Storing key res) ->
  step pooling tmo ssc s (StoreDone r SetRejected) = with_phase s (<[r := Finished]> (phase s)).
Proof. intros Hp. unfold step. by rewrite Hp. Qed.

Lemma step_timeout_due s r key d t :
  phase s !! r = Some (Waiting key) -> waitTimers s !! r = Some d -> d <= t ->
  step pooling tmo ssc s (Timeout r t) =
    {| inFlight := inFlight s; listeners := listeners s;
       waitTimers := delete r (waitTimers s);
       phase := <[r := Finished]> (phase s);
       sent := <[r := timeout_response]> (sent s) |}.
Proof. intros Hp Hd Ht. unfold step. rewrite Hp, Hd. by rewrite (proj2 (Z.leb_le d t) Ht). Qed.



Lemma resolvePool_sent key final s :
  sent (resolvePool pooling key final s) =
    fold_left (respond final "POOLED") (pool_of s key) (sent s).
Proof. unfold resolvePool. by destruct pooling. Qed.


End MiddlewareFacts.

(* ------------------------------------------------------------------ *)
(** ** The broadcast *)

Lemma phase_fold (ws : list nat) (ph : gmap nat Phase) r :
  fold_left (fun m r => <[r := Finished]> m) ws ph !! r =
  if decide (r ∈ ws) then Some Finished else ph !! r.
Proof.
  induction ws as [|a ws IH] in ph |- *; cbn [fold_left].
  - rewrite decide_False; [done | apply not_elem_of_nil].
  - rewrite IH. destruct (decide (r ∈ ws)) as [Hr|Hr].
    + rewrite decide_True; [done|]. by apply elem_of_cons; right.
    + destruct (decide (r = a)) as [->|Hne].
      * rewrite lookup_insert_eq, decide_True; [done|]. by apply elem_of_cons; left.
      * rewrite lookup_insert_ne by congruence. rewrite decide_False; [done|].
        intros [->|?]%elem_of_cons; contradiction.
Qed.

Lemma respond_keep final v (ws : list nat) snt r x :
  snt !! r = Some x -> fold_left (respond final v) ws snt !! r = Some x.
Proof.
  induction ws as [|a ws IH] in snt |- *; intros Hs; cbn [fold_left]; [done|].
  apply IH. unfold respond. destruct (snt !! a) eqn:E; [done|].
  rewrite lookup_insert_ne; [done|]. intros ->. congruence.
Qed.

Lemma respond_other final v (ws : list nat) snt r :
  r ∉ ws -> fold_left (respond final v) ws snt !! r = snt !! r.
Proof.
  induction ws as [|a ws IH] in snt |- *; intros Hr; cbn [fold_left]; [done|].
  rewrite IH by (intros ?; apply Hr; by apply elem_of_cons; right).
  unfold respond. destruct (snt !! a); [done|].
  rewrite lookup_insert_ne; [done|]. intros ->. apply Hr. by apply elem_of_cons; left.
Qed.


Lemma respond_values final v (ws : list nat) snt r x :
  fold_left (respond final v) ws snt !! r = Some x ->
  snt !! r = Some x \/ x = cached_response final v.
Proof.
  induction ws as [|a ws IH] in snt |- *; cbn [fold_left]; [auto|].
  intros H. destruct (IH _ H) as [Hs|]; [|auto].
  unfold respond in Hs. destruct (snt !! a) eqn:E; [auto|].
  destruct (decide (r = a)) as [->|Hne].
  - rewrite lookup_insert_eq in Hs. injection Hs as <-. auto.
  - rewrite lookup_insert_ne in Hs by congruence. auto.
Qed.

Lemma resolvePool_keep pooling key final s r x :
  sent s !! r = Some x -> sent (resolvePool pooling key final s) !! r = Some x.
Proof.
  intros Hs. rewrite resolvePool_sent. by apply respond_keep.
Qed.

Lemma hset_nonempty h k v : hset h k v <> [].
Proof. destruct h as [|[k' v'] h]; cbn; [|destruct (String.eqb k' k)]; discriminate. Qed.

Lemma miss_response_not_timeout resp : miss_response resp <> timeout_response.
Proof. intros H. apply (f_equal headers) in H. exact (hset_nonempty _ _ _ H). Qed.

Lemma cached_response_not_timeout final v : cached_response final v <> timeout_response.
Proof. intros H. apply (f_equal headers) in H. exact (hset_nonempty _ _ _ H). Qed.

(* ------------------------------------------------------------------ *)
(** ** The waiters of a key while its leader runs *)







(* ------------------------------------------------------------------ *)
(** ** Claims about the pooling protocol *)




(** C5 (code_bug): evaluated at the failing input. With a [MemoryCache]
    and [timeOutMins: () => 40000], the leader's [cache.set] rejects (TTL
    beyond 2147483647 ms), so [storeCache] never reaches [resolvePool]: the
    leader's client is answered, but "k" stays in flight, and the next
    request for "k" joins a pool nobody resolves and gets the 504. *)
Theorem C5_rejected_store_leaves_key_in_flight :
  let o := memory_set_outcome (set 1000 "k" sample_response 40000 [] fresh_memory_cache).2 in
  let s := run true default_requestTimeoutMs default_shouldSetCache empty_mw
             (Arrive 1 "k" 1000 :: leader_completion default_shouldSetCache 1 sample_response o) in
  let s1 := step true default_requestTimeoutMs default_shouldSetCache s (Arrive 2 "k" 2000) in
  let s2 := step true default_requestTimeoutMs default_shouldSetCache s1 (Timeout 2 22000) in
  o = SetRejected /\
  sent s !! 1%nat = Some (miss_response sample_response) /\ "k" ∈ inFlight s /\
  phase s1 !! 2%nat = Some (Waiting "k") /\
  sent s2 !! 2%nat = Some timeout_response /\ "k" ∈ inFlight s2.
Proof.
  split; [reflexivity|]. split; [reflexivity|].
  split; [apply (bool_decide_unpack _); reflexivity|].
  split; [reflexivity|]. split; [reflexivity|].
  apply (bool_decide_unpack _); reflexivity.
Qed.

(** C6 (code_bug): a request that joins a pool registers its handler and
    arms its timer at [requestTimeoutMs] after it arrived (with the delay
    [setTimeout] applies). When the timer fires before the broadcast, the
    waiter alone is answered with the 504 [REQUEST_TIMEOUT] response: the
    in-flight flag and every other request's response, phase and timer are
    unchanged. But its handler is not unregistered: [emitter.off] does not
    find the wrapper [emitter.once] registered, so the key's listeners are
    unchanged and the waiter stays in the pool that [getPoolSize] counts.
    A later broadcast runs its handler on a response already sent, which
    leaves the 504 in place. *)
Theorem C6_timed_out_waiter_stays_in_pool pooling tmo ssc :
  (forall s r key t, requestHasPool pooling key s = true -> phase s !! r = None ->
     let s1 := step pooling tmo ssc s (Arrive r key t) in
     phase s1 !! r = Some (Waiting key) /\ waitTimers s1 !! r = Some (t + timer_delay tmo) /\
     r ∈ pool_of s1 key) /\
  (forall s r key d t, phase s !! r = Some (Waiting key) -> waitTimers s !! r = Some d -> d <= t ->
     let s' := step pooling tmo ssc s (Timeout r t) in
     sent s' !! r = Some timeout_response /\ status timeout_response = 504 /\
     waitTimers s' !! r = None /\ inFlight s' = inFlight s /\
     (forall r', r' <> r -> sent s' !! r' = sent s !! r' /\ phase s' !! r' = phase s !! r' /\
                           waitTimers s' !! r' = waitTimers s !! r') /\
     listeners s' = listeners s /\ pool_of s' key = pool_of s key /\
     (forall final, sent (resolvePool pooling key final s') !! r = Some timeout_response)).
Proof.
  split.
  - intros s r key t Hh Hp s1. subst s1.
    rewrite (step_arrive_join pooling tmo ssc s r key t Hp Hh). cbn [phase waitTimers].
    split; [apply lookup_insert_eq|]. split; [apply lookup_insert_eq|].
    unfold pool_of. cbn [listeners]. rewrite lookup_insert_eq. unfold default, id.
    apply elem_of_app. right. by apply elem_of_cons; left.
  - intros s r key d t Hp Hd Ht s'. subst s'.
    rewrite (step_timeout_due pooling tmo ssc s r key d t Hp Hd Ht).
    split; [apply lookup_insert_eq|].
    split; [reflexivity|].
    split; [apply lookup_delete_eq|].
    split; [reflexivity|].
    split.
    { intros r' Hr'. cbn [sent phase waitTimers].
      rewrite !lookup_insert_ne by congruence. rewrite lookup_delete_ne by congruence. done. }
    split; [reflexivity|]. split; [reflexivity|].
    intros final. apply resolvePool_keep. cbn [sent]. apply lookup_insert_eq.
Qed.

Lemma C6_timed_out_waiter_stays_in_pool_witness :
  let s := run true default_requestTimeoutMs default_shouldSetCache empty_mw
             [Arrive 1 "k" 0; Arrive 2 "k" 5] in
  let s' := step true default_requestTimeoutMs default_shouldSetCache s (Timeout 2 20005) in
  sent s' !! 2%nat = Some timeout_response /\ pool_of s' "k" = [2%nat] /\
  pool_miss_reason true "k" s' = "RESPONSE_POOLED: 2".
Proof.
  intros s s'.
  destruct (proj2 (C6_timed_out_waiter_stays_in_pool true default_requestTimeoutMs
                     default_shouldSetCache) s 2%nat "k" 20005 20005)
    as (Hsent & _ & _ & _ & _ & _ & Hpool & _); [reflexivity | reflexivity | lia |].
  split; [exact Hsent|]. split; [subst s'; rewrite Hpool; reflexivity | reflexivity].
Defined.

(* ================================================================== *)
(** * Further properties of the code *)

(* ------------------------------------------------------------------ *)
(** ** [hashString] *)

Lemma to_int32_mod x y : x mod 2 ^ 32 = y mod 2 ^ 32 -> to_int32 x = to_int32 y.
Proof.
  intros H. unfold to_int32. f_equal.
  rewrite (Zplus_mod x), H, <- Zplus_mod. reflexivity.
Qed.

Lemma to_int32_mod_self x : to_int32 x mod 2 ^ 32 = x mod 2 ^ 32.
Proof.
  unfold to_int32. rewrite Zminus_mod_idemp_l. f_equal. lia.
Qed.

Lemma hash_step_poly h c : hash_step h c = to_int32 (h * 31 + c).
Proof.
  unfold hash_step. apply to_int32_mod.
  rewrite Z.shiftl_mul_pow2 by lia.
  rewrite Zplus_mod, Zminus_mod, to_int32_mod_self, <- Zminus_mod, <- Zplus_mod.
  f_equal. change (2 ^ 5) with 32. lia.
Qed.

Lemma fold_hash_step str h :
  fold_left hash_step str (to_int32 h) =
  to_int32 (fold_left (fun acc c => acc * 31 + c) str h).
Proof.
  induction str as [|c str IH] in h |- *; [done|]. cbn [fold_left].
  rewrite <- IH. f_equal. rewrite hash_step_poly. apply to_int32_mod.
  rewrite Zplus_mod, Zmult_mod, to_int32_mod_self, <- Zmult_mod, <- Zplus_mod.
  reflexivity.
Qed.

(** [hashString] is the decimal form of [(p + 2^31) mod 2^32], where [p]
    is the polynomial [sum c_i * 31^(n-1-i)] of the code units. *)
Lemma hashString_eq_poly str :
  hashString str =
  pretty ((fold_left (fun acc c => acc * 31 + c) str 0 + 2 ^ 31) mod 2 ^ 32).
Proof.
  unfold hashString. change 0 with (to_int32 0) at 1. rewrite fold_hash_step.
  f_equal. unfold to_int32. lia.
Qed.

(* ------------------------------------------------------------------ *)
(** ** [RedisCache] *)

Section RedisFacts.
Context {V : Type}.
Implicit Types (s : RedisCache V) (v : V) (key : string) (deps : list jsval).

Lemma redis_set_connected key (r : @RedisRecord V) s :
  (forall t, pxat r = Some t -> 0 < t) ->
  redis_set key r s =
    ({| isOpen := isOpen s; isReady := isReady s; store := <[key := r]> (store s);
        rdependencies := rdependencies s |}, Ok tt).
Proof.
  intros Hp. unfold redis_set. destruct (pxat r) as [t|]; [|done].
  rewrite (proj2 (Z.leb_gt _ _)); [done|]. by apply Hp.
Qed.

Lemma redis_dependenciesChanged_same key deps s :
  rdependencies s !! key = Some deps -> redis_dependenciesChanged key deps s = (s, false).
Proof.
  intros Hd. unfold redis_dependenciesChanged. rewrite Hd. by rewrite String.eqb_refl.
Qed.

End RedisFacts.

(* ------------------------------------------------------------------ *)
(** ** Extra properties: [hashString] and the default cache key *)

(** X1: the default cache key of a URL is "c_" followed by the decimal
    form of [(p + 2^31) mod 2^32], [p] the base-31 polynomial of the URL's
    code units: a number from 0 to 4294967295, never negative. *)
Theorem provideCacheKey_poly url :
  let n := (fold_left (fun acc c => acc * 31 + c) url 0 + 2 ^ 31) mod 2 ^ 32 in
  provideCacheKey url = "c_" +:+ pretty n /\ 0 <= n < 2 ^ 32.
Proof.
  intros n. split.
  - unfold provideCacheKey. by rewrite hashString_eq_poly.
  - subst n. apply Z.mod_pos_bound. lia.
Qed.

(** X2: [hashString] collides: raising one code unit by 1 and lowering
    the next by 31 (as "Aa" and "BB") keeps the hash, so such URLs share
    the default cache key and the cache entry stored under it. *)
Theorem provideCacheKey_collision p q c1 c2 :
  provideCacheKey (p ++ [c1; c2] ++ q) = provideCacheKey (p ++ [c1 + 1; c2 - 31] ++ q).
Proof.
  unfold provideCacheKey. rewrite !hashString_eq_poly. rewrite !fold_left_app.
  cbn [fold_left]. set (h := fold_left _ p 0).
  replace ((h * 31 + (c1 + 1)) * 31 + (c2 - 31)) with ((h * 31 + c1) * 31 + c2) by lia.
  reflexivity.
Qed.

(* ------------------------------------------------------------------ *)
(** ** Extra properties: [RedisCache] *)

(** X3: on a connected client, an entry stored with [timeoutMins] 0 is
    stored with no expiry: [set] resolves [true], and at any later time
    [get] with the same snapshot returns the stored [{value}] and [has] is
    true. *)
Theorem redis_set_get_no_ttl now t key (v : Resp) deps (s : RedisCache Resp) :
  isOpen s = true -> isReady s = true ->
  let s1 := (redis_cache_set now key v 0 deps s).1 in
  (redis_cache_set now key v 0 deps s).2 = Ok true /\
  (redis_get t key deps s1).2 = Some (PlainValue v) /\ redis_has t key s1 = true.
Proof.
  intros Ho Hr s1. subst s1. unfold redis_cache_set. rewrite Ho, Hr. cbn [negb andb Z.eqb].
  rewrite redis_set_connected by discriminate. cbn [fst snd].
  split; [done|]. unfold redis_get, redis_has. cbn [isOpen isReady store negb andb].
  rewrite ?Ho, ?Hr. cbn [negb andb]. rewrite lookup_insert_eq. cbn [redis_live pxat].
  rewrite redis_dependenciesChanged_same by (cbn; apply lookup_insert_eq).
  done.
Qed.

Lemma redis_set_get_no_ttl_witness :
  let s1 := (redis_cache_set 1000 "k" sample_response 0 [] connected_redis).1 in
  (redis_get 999999999 "k" [] s1).2 = Some (PlainValue sample_response).
Proof.
  apply (redis_set_get_no_ttl 1000 999999999 "k" sample_response [] connected_redis);
    reflexivity.
Defined.

(** X4: on a connected client, an entry stored with a non-zero
    [timeoutMins] whose expiry instant is a valid positive time is stored
    with [PXAT] at [Date.now() + timeoutMins * 60000]: before that instant
    [get] with the same snapshot returns the stored container (holding the
    value and that [expiresTime]); after it, [get] answers [null] and [has]
    is false. *)
Theorem redis_set_get_ttl now t key (v : Resp) mins deps (s : RedisCache Resp) :
  isOpen s = true -> isReady s = true -> mins <> 0 ->
  0 < now + mins * 60000 <= max_time_value ->
  let s1 := (redis_cache_set now key v mins deps s).1 in
  (redis_cache_set now key v mins deps s).2 = Ok true /\
  (t < now + mins * 60000 ->
     exists c, (redis_get t key deps s1).2 = Some (Container c) /\ value c = v /\
               expiresTime (expiry c) = now + mins * 60000) /\
  (now + mins * 60000 < t -> (redis_get t key deps s1).2 = None /\ redis_has t key s1 = false).
Proof.
  intros Ho Hr Hm Hd s1. subst s1. unfold redis_cache_set. rewrite Ho, Hr.
  cbn [negb andb]. rewrite (proj2 (Z.eqb_neq _ _)) by lia. unfold expiryFromMins.
  rewrite (proj2 (Z.leb_le _ _)) by lia.
  rewrite redis_set_connected by (cbn; intros t' [= <-]; lia).
  cbn [fst snd]. split; [done|].
  unfold redis_get, redis_has. cbn [isOpen isReady store negb andb].
  rewrite ?Ho, ?Hr. cbn [negb andb]. rewrite lookup_insert_eq. unfold redis_live. cbn [pxat].
  split.
  - intros Ht. cbn [expiresTime]. rewrite (proj2 (Z.leb_le t (now + mins * 60000))) by lia.
    rewrite redis_dependenciesChanged_same by (cbn; apply lookup_insert_eq).
    eexists. split; [reflexivity|]. done.
  - intros Ht. cbn [expiresTime]. rewrite (proj2 (Z.leb_gt t (now + mins * 60000))) by lia. done.
Qed.

Lemma redis_set_get_ttl_witness :
  let s1 := (redis_cache_set 1000 "k" sample_response 1 [] connected_redis).1 in
  (exists c, (redis_get 2000 "k" [] s1).2 = Some (Container c) /\ value c = sample_response) /\
  (redis_get 70000 "k" [] s1).2 = None.
Proof.
  intros s1. split.
  - destruct (proj1 (proj2 (redis_set_get_ttl 1000 2000 "k" sample_response 1 []
                connected_redis eq_refl eq_refl ltac:(lia) ltac:(unfold max_time_value; lia))))
      as (c & Hc & Hv & _); [lia|].
    exists c. split; [exact Hc | exact Hv].
  - apply (proj2 (proj2 (redis_set_get_ttl 1000 70000 "k" sample_response 1 []
             connected_redis eq_refl eq_refl ltac:(lia) ltac:(unfold max_time_value; lia)))).
    lia.
Defined.

(** X6: on a connected client, [get] of a live entry whose recorded
    snapshot serializes differently from the one passed answers [null],
    deletes the key from Redis and drops its dependency record. *)
Theorem redis_get_changed_evicts t key deps deps' (s : RedisCache Resp) r :
  isOpen s = true -> isReady s = true -> store s !! key = Some r -> redis_live t r = true ->
  rdependencies s !! key = Some deps' -> stringify_deps deps' <> stringify_deps deps ->
  let s' := (redis_get t key deps s).1 in
  (redis_get t key deps s).2 = None /\ store s' = delete key (store s) /\
  rdependencies s' = delete key (rdependencies s).
Proof.
  intros Ho Hr Hs Hl Hd Hne s'. subst s'. unfold redis_get. rewrite Ho, Hr. cbn [negb andb].
  rewrite Hs, Hl. unfold redis_dependenciesChanged. rewrite Hd.
  apply String.eqb_neq in Hne. rewrite Hne. unfold redis_remove. cbn [isOpen isReady].
  rewrite Ho, Hr. cbn. split; [done|]. split; [done|]. apply delete_insert_eq.
Qed.

Lemma redis_get_changed_evicts_witness :
  let s := {| isOpen := true; isReady := true;
              store := {[ "k" := {| payload := PlainValue sample_response; pxat := None |} ]};
              rdependencies := {[ "k" := [JNum 1] ]} |} in
  (redis_get 1000 "k" [JNum 2] s).2 = None /\ store (redis_get 1000 "k" [JNum 2] s).1 !! "k" = None.
Proof.
  intros s.
  destruct (redis_get_changed_evicts 1000 "k" [JNum 2] [JNum 1] s
              {| payload := PlainValue sample_response; pxat := None |})
    as (H1 & H2 & _); [reflexivity | reflexivity | reflexivity | reflexivity | reflexivity
                       | vm_compute; congruence |].
  split; [exact H1|]. rewrite H2. apply lookup_delete_eq.
Defined.

(** X7: [RedisCache] keeps dependency snapshots in the process, not in
    Redis: for a live entry with no snapshot recorded by this instance (one
    written by another process or before a restart), [get] returns the
    stored object whatever snapshot is passed, and records nothing. *)
Theorem redis_get_untracked_dependencies t key deps (s : RedisCache Resp) r :
  isOpen s = true -> isReady s = true -> store s !! key = Some r -> redis_live t r = true ->
  rdependencies s !! key = None ->
  redis_get t key deps s = (s, Some (payload r)).
Proof.
  intros Ho Hr Hs Hl Hd. unfold redis_get. rewrite Ho, Hr. cbn [negb andb].
  rewrite Hs, Hl. unfold redis_dependenciesChanged. by rewrite Hd.
Qed.

Lemma redis_get_untracked_dependencies_witness :
  let s := {| isOpen := true; isReady := true;
              store := {[ "k" := {| payload := PlainValue sample_response; pxat := None |} ]};
              rdependencies := ∅ |} in
  redis_get 1000 "k" [JNum 2] s = (s, Some (PlainValue sample_response)).
Proof.
  intros s.
  apply (redis_get_untracked_dependencies 1000 "k" [JNum 2] s
           {| payload := PlainValue sample_response; pxat := None |}); reflexivity.
Defined.

(* ------------------------------------------------------------------ *)
(** ** [MemoryCache] helpers *)

Section MemoryCacheFacts2.
Context {V : Type}.
Implicit Types (s : MemoryCache V) (v : V) (key : string) (deps : list jsval).

Lemma remove_timers key s : timers (remove key s).1 !! key = None.
Proof.
  unfold remove. destruct (timers s !! key) eqn:E; cbn; [apply lookup_delete_eq | done].
Qed.

Lemma set_ok_cache now key v mins deps s it :
  (set now key v mins deps s).2 = Ok it -> cache (set now key v mins deps s).1 !! key = Some it.
Proof.
  unfold set. destruct (expiryFromMins now mins) as [e|]; [|discriminate].
  destruct (mins =? 0); [intros [= <-]; apply lookup_insert_eq|].
  destruct (2147483647 <? timeoutMs e); [discriminate|]. intros [= <-]. apply lookup_insert_eq.
Qed.

Lemma set_next_handle now key v mins deps s :
  (next_handle s <= next_handle (set now key v mins deps s).1)%nat.
Proof.
  unfold set. destruct (expiryFromMins now mins) as [e|]; [|done].
  destruct (mins =? 0); [done|]. destruct (2147483647 <? timeoutMs e); cbn; lia.
Qed.

Lemma set_pending_old now key v mins deps s h :
  (h < next_handle s)%nat ->
  pending (set now key v mins deps s).1 !! h = pending s !! h.
Proof.
  intros Hh. unfold set. destruct (expiryFromMins now mins) as [e|]; [|done].
  destruct (mins =? 0); [done|]. destruct (2147483647 <? timeoutMs e); [done|].
  cbn. rewrite lookup_insert_ne; [done | lia].
Qed.

(** A store with a TTL of 1 to 35791 minutes arms a timer under the next
    handle, firing [timeoutMins * 60000] ms later. *)
Lemma set_timer now key v mins deps s :
  0 < mins <= 35791 -> Z.abs (now + mins * 60000) <= max_time_value ->
  let s1 := (set now key v mins deps s).1 in
  (exists it, (set now key v mins deps s).2 = Ok it /\ value it = v /\
              expiresTime (expiry it) = now + mins * 60000) /\
  timers s1 !! key = Some (next_handle s) /\
  pending s1 !! next_handle s = Some (key, now + mins * 60000) /\
  next_handle s1 = S (next_handle s).
Proof.
  intros Hm Hd s1. subst s1. unfold set, expiryFromMins.
  rewrite (proj2 (Z.leb_le _ _)) by lia.
  rewrite (proj2 (Z.eqb_neq _ _)) by lia. cbn -[Z.mul Z.add].
  rewrite (proj2 (Z.ltb_ge _ _)) by lia. cbn -[Z.mul Z.add].
  split; [eexists; split; [reflexivity | done]|].
  split; [apply lookup_insert_eq|]. split; [|done].
  rewrite lookup_insert_eq. unfold timer_delay.
  rewrite (proj2 (Z.ltb_ge (mins * 60000) 1)) by lia.
  rewrite (proj2 (Z.ltb_ge 2147483647 (mins * 60000))) by lia.
  done.
Qed.

(** Firing a pending timer at or after its time removes the key's entry
    and its dependency record. *)
Lemma fire_due t h key at_ s :
  pending s !! h = Some (key, at_) -> at_ <= t -> is_Some (cache s !! key) ->
  has key (fire t h s) = false /\ dependencies (fire t h s) !! key = None.
Proof.
  intros Hp Ht Hc. unfold fire. rewrite Hp, (proj2 (Z.leb_le _ _) Ht).
  rewrite bool_decide_eq_true_2 by exact Hc.
  split; [apply has_remove|]. rewrite remove_dependencies. apply lookup_delete_eq.
Qed.

(** A timer fired before its time does nothing. *)
Lemma fire_early t h key at_ s :
  pending s !! h = Some (key, at_) -> t < at_ -> fire t h s = s.
Proof.
  intros Hp Ht. unfold fire. rewrite Hp. by rewrite (proj2 (Z.leb_gt _ _) Ht).
Qed.

(** A handle no longer pending never fires. *)
Lemma fire_none t h s : pending s !! h = None -> fire t h s = s.
Proof. intros Hp. unfold fire. by rewrite Hp. Qed.

Lemma remove_pending key s h x :
  pending (remove key s).1 !! h = Some x -> pending s !! h = Some x.
Proof.
  unfold remove. destruct (timers s !! key) as [h'|]; cbn; [|done].
  rewrite lookup_delete_Some. tauto.
Qed.

(** A timer firing at [t] leaves an entry alone while every timer armed
    for its key is due after [t]. *)
Lemma fire_keeps t h key it deps s :
  cache s !! key = Some it -> dependencies s !! key = Some deps ->
  (forall h' k a, pending s !! h' = Some (k, a) -> k = key -> t < a) ->
  cache (fire t h s) !! key = Some it /\ dependencies (fire t h s) !! key = Some deps /\
  (forall h' k a, pending (fire t h s) !! h' = Some (k, a) -> k = key -> t < a).
Proof.
  intros Hc Hd Hp. unfold fire.
  destruct (pending s !! h) as [[k a]|] eqn:Eh; [|done].
  destruct (a <=? t) eqn:Ea; [|done].
  apply Z.leb_le in Ea.
  assert (Hk : k <> key) by (intros ->; specialize (Hp h key a Eh eq_refl); lia).
  destruct (bool_decide _).
  - rewrite remove_cache, remove_dependencies. cbn [cache dependencies].
    rewrite !lookup_delete_ne by congruence.
    split; [exact Hc|]. split; [exact Hd|].
    intros h' k' a' Hp' Hk'. apply remove_pending in Hp'. cbn in Hp'.
    apply lookup_delete_Some in Hp' as [_ Hp']. eauto.
  - cbn. split; [exact Hc|]. split; [exact Hd|].
    intros h' k' a' Hp' Hk'. apply lookup_delete_Some in Hp' as [_ Hp']. eauto.
Qed.

Lemma fires_keep t hs key it deps s :
  cache s !! key = Some it -> dependencies s !! key = Some deps ->
  (forall h' k a, pending s !! h' = Some (k, a) -> k = key -> t < a) ->
  let s' := fold_left (fun st h => fire t h st) hs s in
  cache s' !! key = Some it /\ dependencies s' !! key = Some deps.
Proof.
  revert s. induction hs as [|h hs IH]; intros s Hc Hd Hp; cbn [fold_left].
  - done.
  - destruct (fire_keeps t h key it deps s Hc Hd Hp) as (Hc' & Hd' & Hp').
    exact (IH _ Hc' Hd' Hp').
Qed.

(** After a [set] with a TTL of [mins] > 0 minutes, with no other timer
    armed for the key, the entry's timer is due at the expiry instant. *)
Lemma set_within_ttl_state now t key v mins deps s it :
  0 < mins -> mins * 60000 <= 2147483647 -> t < now + mins * 60000 ->
  (forall h k a, pending s !! h = Some (k, a) -> k <> key) ->
  (set now key v mins deps s).2 = Ok it ->
  expiresTime (expiry it) = now + mins * 60000 /\
  cache (set now key v mins deps s).1 !! key = Some it /\
  dependencies (set now key v mins deps s).1 !! key = Some deps /\
  (forall h k a, pending (set now key v mins deps s).1 !! h = Some (k, a) ->
                 k = key -> t < a).
Proof.
  intros Hm Hmax Ht Hp. unfold set.
  destruct (expiryFromMins now mins) as [e|] eqn:Ee; [|discriminate].
  unfold expiryFromMins in Ee. destruct (Z.abs _ <=? _); [|discriminate].
  injection Ee as <-.
  rewrite (proj2 (Z.eqb_neq mins 0)) by lia. cbn [timeoutMs].
  rewrite (proj2 (Z.ltb_ge _ _)) by lia.
  intros [= <-]. cbn.
  split; [reflexivity|]. split; [apply lookup_insert_eq|]. split; [apply lookup_insert_eq|].
  intros h k a Hh ->. apply lookup_insert_Some in Hh as [[_ [= <-]]|[_ Hh]].
  - unfold timer_delay.
    rewrite (proj2 (Z.ltb_ge (mins * 60000) 1)), (proj2 (Z.ltb_ge 2147483647 (mins * 60000)))
      by lia.
    cbn. lia.
  - exfalso. exact (Hp _ _ _ Hh eq_refl).
Qed.

End MemoryCacheFacts2.

(* ------------------------------------------------------------------ *)
(** ** Extra properties: [MemoryCache] *)

(** X8: a [set] with a whole number [timeoutMins] > 0 of minutes (at
    most 2147483647 ms), for a key with no timer armed by an earlier
    [set], resolves with the stored container; until the TTL has elapsed,
    whichever armed timers fire, [get] with the same snapshot returns that
    container and [has] is true. *)
Theorem memory_set_get_within_ttl now t key (v : Resp) mins deps (s : MemoryCache Resp) hs :
  0 < mins -> mins * 60000 <= 2147483647 -> 0 < now -> now <= t < now + mins * 60000 ->
  now + mins * 60000 <= max_time_value ->
  (forall h k a, pending s !! h = Some (k, a) -> k <> key) ->
  let r := set now key v mins deps s in
  let s' := fold_left (fun st h => fire t h st) hs r.1 in
  exists it, r.2 = Ok it /\ value it = v /\
             has key s' = true /\ (get t key deps s').2 = Some it.
Proof.
  intros Hm Hmax Hn Ht Hd Hp r s'.
  destruct (set_get_within_ttl now t key v mins deps s Hm Hmax Hn Ht Hd)
    as (it & Hok & _ & Hv).
  destruct (set_within_ttl_state now t key v mins deps s it Hm Hmax (proj2 Ht) Hp Hok)
    as (He & Hc & Hdeps & Hpend).
  destruct (fires_keep t hs key it deps _ Hc Hdeps Hpend) as [Hc' Hd'].
  fold r s' in Hc', Hd'.
  exists it. split; [exact Hok|]. split; [exact Hv|].
  split; [unfold has; rewrite Hc'; by apply bool_decide_eq_true_2|].
  unfold get. rewrite Hc', (dependenciesChanged_same key deps deps s' Hd' eq_refl).
  rewrite He, (proj2 (Z.leb_gt _ _)) by lia.
  by rewrite andb_false_r.
Qed.

Lemma memory_set_get_within_ttl_witness :
  let s0 := (set 0 "other" sample_response 1 [] fresh_memory_cache).1 in
  let r := set 1000 "k" sample_response 5 [] s0 in
  let s' := fold_left (fun st h => fire 200000 h st) [0%nat; 1%nat] r.1 in
  exists it, r.2 = Ok it /\ value it = sample_response /\
             has "k" s' = true /\ (get 200000 "k" [] s').2 = Some it.
Proof.
  intros s0 r s'.
  apply (memory_set_get_within_ttl 1000 200000 "k" sample_response 5 [] s0 [0%nat; 1%nat]);
    try (unfold max_time_value; lia).
  intros h k a Hh. subst s0.
  assert (Hp : pending (set 0 "other" sample_response 1 [] fresh_memory_cache).1 =
               {[0%nat := ("other", 60000)]}) by reflexivity.
  rewrite Hp in Hh. apply lookup_singleton_Some in Hh as [_ [= <- _]]. discriminate.
Defined.

(** X10: a [set] with a TTL of 1 to 35791 minutes arms a timer: fired
    before [timeoutMins * 60000] ms have passed it changes nothing; fired
    at or after that time it removes the entry and its dependency record. *)
Theorem memory_timer_removes_entry now t key (v : Resp) mins deps (s : MemoryCache Resp) :
  0 < mins <= 35791 -> Z.abs (now + mins * 60000) <= max_time_value ->
  let s1 := (set now key v mins deps s).1 in
  has key s1 = true /\ timers s1 !! key = Some (next_handle s) /\
  (t < now + mins * 60000 -> fire t (next_handle s) s1 = s1) /\
  (now + mins * 60000 <= t ->
     has key (fire t (next_handle s) s1) = false /\
     dependencies (fire t (next_handle s) s1) !! key = None).
Proof.
  intros Hm Hd s1. subst s1.
  destruct (set_timer now key v mins deps s Hm Hd) as ((it & Hok & _) & Ht & Hp & _).
  pose proof (set_ok_cache _ _ _ _ _ _ _ Hok) as Hc.
  split; [unfold has; rewrite Hc; by apply bool_decide_eq_true_2|].
  split; [exact Ht|]. split.
  - intros Hlt. by apply (fire_early _ _ key (now + mins * 60000)).
  - intros Hle. apply (fire_due _ _ _ (now + mins * 60000)); [exact Hp | exact Hle |].
    rewrite Hc. eauto.
Qed.

Lemma memory_timer_removes_entry_witness :
  let s1 := (set 1000 "k" sample_response 1 [] fresh_memory_cache).1 in
  fire 30000 0%nat s1 = s1 /\ has "k" (fire 61000 0%nat s1) = false.
Proof.
  destruct (memory_timer_removes_entry 1000 30000 "k" sample_response 1 [] fresh_memory_cache
              ltac:(lia) ltac:(unfold max_time_value; lia)) as (_ & _ & H1 & _).
  destruct (memory_timer_removes_entry 1000 61000 "k" sample_response 1 [] fresh_memory_cache
              ltac:(lia) ltac:(unfold max_time_value; lia)) as (_ & _ & _ & H2).
  split; [apply H1; lia | apply H2; lia].
Defined.

(** X11: [set] does not cancel the timer an earlier [set] of the same key
    armed: when that timer fires, it removes the entry stored since,
    whatever that entry's own TTL. *)
Theorem memory_stale_timer_removes_newer_entry now now2 t key (v v2 : Resp) mins mins2
    deps deps2 (s : MemoryCache Resp) it2 :
  0 < mins <= 35791 -> Z.abs (now + mins * 60000) <= max_time_value ->
  now + mins * 60000 <= t ->
  let s1 := (set now key v mins deps s).1 in
  (set now2 key v2 mins2 deps2 s1).2 = Ok it2 ->
  let s2 := (set now2 key v2 mins2 deps2 s1).1 in
  cache s2 !! key = Some it2 /\ has key (fire t (next_handle s) s2) = false.
Proof.
  intros Hm Hd Ht s1 Hok s2. subst s2.
  destruct (set_timer now key v mins deps s Hm Hd) as (_ & _ & Hp & Hn).
  pose proof (set_ok_cache _ _ _ _ _ _ _ Hok) as Hc. split; [exact Hc|].
  apply (fire_due _ _ _ (now + mins * 60000)); [| exact Ht | rewrite Hc; eauto].
  rewrite set_pending_old; [exact Hp|]. subst s1. rewrite Hn. lia.
Qed.

Lemma memory_stale_timer_removes_newer_entry_witness :
  let s1 := (set 1000 "k" sample_response 1 [] fresh_memory_cache).1 in
  let s2 := (set 2000 "k" sample_response 60 [] s1).1 in
  option_map (fun it => expiresTime (expiry it)) (cache s2 !! "k") = Some 3602000 /\
  has "k" (fire 61000 0%nat s2) = false.
Proof.
  intros s1 s2.
  destruct (memory_stale_timer_removes_newer_entry 1000 2000 61000 "k" sample_response
              sample_response 1 60 [] [] fresh_memory_cache
              {| value := sample_response;
                 expiry := {| expiryEnabled := true; timeoutMins := 60; timeoutMs := 3600000;
                              expiresTime := 3602000; expiresAt := 3602000 |};
                 modelVersion := version |}
              ltac:(lia) ltac:(unfold max_time_value; lia) ltac:(lia) eq_refl)
    as (H1 & H2).
  split; [subst s2 s1; rewrite H1; reflexivity | exact H2].
Defined.

(** X12: [remove] cancels the key's timer: after a [set] with a TTL of 1
    to 35791 minutes and a [remove] of the key, the entry is gone and the
    timer, whenever it would have fired, does nothing. *)
Theorem memory_remove_cancels_timer now t key (v : Resp) mins deps (s : MemoryCache Resp) :
  0 < mins <= 35791 -> Z.abs (now + mins * 60000) <= max_time_value ->
  let s1 := (remove key (set now key v mins deps s).1).1 in
  has key s1 = false /\ timers s1 !! key = None /\ fire t (next_handle s) s1 = s1.
Proof.
  intros Hm Hd s1. subst s1.
  destruct (set_timer now key v mins deps s Hm Hd) as (_ & Ht & _ & _).
  split; [apply has_remove|]. split; [apply remove_timers|].
  apply fire_none. unfold remove. rewrite Ht. cbn. apply lookup_delete_eq.
Qed.

Lemma memory_remove_cancels_timer_witness :
  let s1 := (remove "k" (set 1000 "k" sample_response 1 [] fresh_memory_cache).1).1 in
  fire 61000 0%nat s1 = s1.
Proof.
  apply (memory_remove_cancels_timer 1000 61000 "k" sample_response 1 [] fresh_memory_cache);
    unfold max_time_value; lia.
Defined.

(** X13: [MemoryCache.get] of a key with no entry answers [null], leaves
    the entries as they are, and drops the key's dependency record and
    timer (such as the record a rejected [set] left behind). *)
Theorem memory_get_missing t key deps (s : MemoryCache Resp) :
  cache s !! key = None ->
  let s' := (get t key deps s).1 in
  (get t key deps s).2 = None /\ cache s' = cache s /\
  dependencies s' = delete key (dependencies s) /\ timers s' !! key = None.
Proof.
  intros Hc s'. subst s'. unfold get. rewrite Hc.
  destruct (dependenciesChanged key deps s) as [s1 b] eqn:E.
  assert (Hs1 : cache s1 = cache s /\ timers s1 = timers s /\
                delete key (dependencies s1) = delete key (dependencies s)).
  { unfold dependenciesChanged in E. destruct (dependencies s !! key);
      [destruct (String.eqb _ _)|]; injection E as <- <-; cbn; auto.
    split; [done|]. split; [done|]. apply delete_insert_eq. }
  destruct Hs1 as (Hc1 & Ht1 & Hd1).
  destruct b; cbn [fst snd]; (split; [done|]);
    rewrite remove_cache, remove_dependencies, Hc1, Hd1, delete_id by done;
    (split; [done|]); (split; [done|]); apply remove_timers.
Qed.

Lemma memory_get_missing_witness :
  let s := (set 1000 "k" sample_response 40000 [JNum 1] fresh_memory_cache).1 in
  dependencies s !! "k" = Some [JNum 1] /\
  dependencies (get 2000 "k" [] s).1 !! "k" = None.
Proof.
  intros s. split; [reflexivity|].
  destruct (memory_get_missing 2000 "k" [] s) as (_ & _ & Hd & _); [reflexivity|].
  rewrite Hd. apply lookup_delete_eq.
Defined.

(* ------------------------------------------------------------------ *)
(** ** Extra properties: the request's cache read *)

(** X14: with the default [shouldGetCache], a request carrying
    [Cache-Control: no-cache] does not read the cache and misses with the
    reason CACHE_CONTROL_HEADER, unless it also carries
    [x-cache-do-not-pool: true] while its key is in flight: then it reads
    the cache and, when an entry is there, is answered from it. *)
Theorem front_no_cache_bypass {C : Type} (cache_get : string -> list jsval -> C -> C * option Resp)
    hasPool noPoolHeader key deps c :
  (noPoolHeader && hasPool = false ->
     front cache_get hasPool noPoolHeader (default_shouldGetCache (Some "no-cache")) key deps c
       = (c, FrontMiss ["CACHE_CONTROL_HEADER"])) /\
  (forall c1 v, noPoolHeader = true -> hasPool = true -> cache_get key deps c = (c1, Some v) ->
     front cache_get hasPool noPoolHeader (default_shouldGetCache (Some "no-cache")) key deps c
       = (c1, FrontHit v)).
Proof.
  split.
  - intros H. unfold front. rewrite H. reflexivity.
  - intros c1 v -> -> Hg. unfold front. cbn [andb]. by rewrite Hg.
Qed.

Lemma front_no_cache_bypass_witness :
  let mc := (set 1000 "k" sample_response 5 [] fresh_memory_cache).1 in
  front (memory_cache_get 2000) true true (default_shouldGetCache (Some "no-cache")) "k" [] mc
    = ((memory_cache_get 2000 "k" [] mc).1, FrontHit sample_response) /\
  front (memory_cache_get 2000) true false (default_shouldGetCache (Some "no-cache")) "k" [] mc
    = (mc, FrontMiss ["CACHE_CONTROL_HEADER"]).
Proof.
  intros mc. split.
  - apply (proj2 (front_no_cache_bypass (memory_cache_get 2000) true true "k" [] mc));
      [reflexivity | reflexivity | vm_compute; reflexivity].
  - apply (proj1 (front_no_cache_bypass (memory_cache_get 2000) true false "k" [] mc)).
    reflexivity.
Defined.

(** X15: [x-cache-do-not-pool: true] does not keep a request out of a
    pool: when its key is in flight and the [MemoryCache] holds no entry
    for it, the request misses and joins the key's pool as a waiter, like a
    request without the header. *)
Theorem do_not_pool_still_joins pooling tmo ssc now key deps sg (mc : MemoryCache Resp)
    (mw : MW) r t :
  requestHasPool pooling key mw = true -> phase mw !! r = None -> cache mc !! key = None ->
  (exists mc' reasons,
     front (memory_cache_get now) (requestHasPool pooling key mw) true sg key deps mc
       = (mc', FrontMiss reasons)) /\
  phase (step pooling tmo ssc mw (Arrive r key t)) !! r = Some (Waiting key).
Proof.
  intros Hp Hr Hc. split.
  - unfold front. rewrite Hp. cbn [andb]. unfold memory_cache_get.
    destruct (memory_get_missing now key deps mc Hc) as (Hg & Hc' & _).
    destruct (get now key deps mc) as [mc1 o] eqn:E. cbn [snd fst] in Hg, Hc'. subst o.
    cbn [option_map].
    destruct sg as [| reason |]; [| eauto | eauto].
    destruct (memory_get_missing now key deps mc1) as (Hg2 & _); [by rewrite Hc'|].
    destruct (get now key deps mc1) as [mc2 o2]. cbn [snd] in Hg2. subst o2. eauto.
  - rewrite (step_arrive_join pooling tmo ssc mw r key t Hr Hp). apply lookup_insert_eq.
Qed.

Lemma do_not_pool_still_joins_witness :
  let mw := step true default_requestTimeoutMs default_shouldSetCache empty_mw (Arrive 1 "k" 0) in
  phase (step true default_requestTimeoutMs default_shouldSetCache mw (Arrive 2 "k" 5)) !! 2%nat
    = Some (Waiting "k").
Proof.
  intros mw.
  apply (do_not_pool_still_joins true default_requestTimeoutMs default_shouldSetCache 5 "k" []
           GetTrue fresh_memory_cache mw 2 5); reflexivity.
Defined.

(* ------------------------------------------------------------------ *)
(** ** Extra properties: the cache events of the leader *)

(** X18: with a [RedisCache] whose client is not open or not ready, a
    leader that answers with [res.send] of a string body, which the policy
    allows to store, raises NOT_STORED with the reason CACHE_UNAVAILABLE
    and then FINISHED_CACHE_MISS_AND_STORED: [set] resolves [false], and
    [storeCache] still reports [didStore: true]. *)
Theorem redis_unavailable_reported_stored pooling now key (v : Resp) mins deps
    (s : RedisCache Resp) statusCode poolSize :
  isOpen s && isReady s = false ->
  let o := redis_set_outcome (redis_cache_set now key v mins deps s).2 in
  o = SetFalsy /\
  send_events pooling statusCode SetTrue o poolSize =
    [("NOT_STORED", Some "CACHE_UNAVAILABLE")] ++ pool_send_events pooling poolSize ++
    [("FINISHED_CACHE_MISS_AND_STORED", None)].
Proof.
  intros Hc o. subst o. unfold redis_cache_set. rewrite Hc. cbn [negb fst snd redis_set_outcome].
  split; [done|]. unfold send_events, storeCache_events. by rewrite <- app_assoc.
Qed.

Lemma redis_unavailable_reported_stored_witness :
  let s := {| isOpen := false; isReady := false; store := ∅; rdependencies := ∅ |} in
  send_events true 200 SetTrue
    (redis_set_outcome (redis_cache_set 1000 "k" sample_response 60 [] s).2) 0
  = [("NOT_STORED", Some "CACHE_UNAVAILABLE"); ("POOL_SEND", Some "POOL_SIZE: 0");
     ("FINISHED_CACHE_MISS_AND_STORED", None)].
Proof.
  intros s.
  destruct (redis_unavailable_reported_stored true 1000 "k" sample_response 60 [] s 200 0)
    as (_ & H); [reflexivity|].
  rewrite H. reflexivity.
Defined.

(* ------------------------------------------------------------------ *)
(** ** The pooling protocol: responses are final *)

Lemma resolvePool_closed pooling key final s :
  sent_closed s -> sent_closed (resolvePool pooling key final s).
Proof.
  intros Hc r Hs. unfold resolvePool, emit in *.
  destruct pooling; cbn [sent phase pool_of listeners] in *; rewrite phase_fold;
    (destruct (decide (r ∈ _)) as [Hr|Hr]; [done|]);
    rewrite respond_other in Hs by exact Hr; by apply Hc.
Qed.

Ltac closed_insert Hc :=
  let r' := fresh "r" in let Hs := fresh "Hs" in
  intros r' Hs; cbn [phase sent with_phase with_phase_sent] in *;
  match goal with
  | |- context [<[?r := _]> _ !! r'] =>
      destruct (decide (r' = r)) as [->|?];
      [rewrite lookup_insert_eq; trivial
      | rewrite lookup_insert_ne by congruence;
        rewrite ?lookup_insert_ne in Hs by congruence; by apply Hc]
  end.

Lemma step_closed pooling tmo ssc s e :
  sent_closed s -> sent_closed (step pooling tmo ssc s e).
Proof.
  intros Hc. destruct e as [r key t | r resp m | r o | r t]; cbn [step].
  - destruct (phase s !! r) eqn:Hp; [done|].
    assert (Hn : sent s !! r = None).
    { destruct (sent s !! r) eqn:E; [|done]. specialize (Hc r ltac:(rewrite E; eauto)).
      by rewrite Hp in Hc. }
    destruct (requestHasPool pooling key s); intros r' Hs; cbn [phase sent] in *;
      (destruct (decide (r' = r)) as [->|?];
       [rewrite Hn in Hs; by destruct Hs | rewrite lookup_insert_ne by congruence; by apply Hc]).
  - destruct (phase s !! r) as [[k|k res|k|]|] eqn:Hp; try done.
    destruct (ssc resp).
    + closed_insert Hc.
    + pose proof (resolvePool_closed pooling k resp s Hc) as Hc1. closed_insert Hc1.
  - destruct (phase s !! r) as [[k|k res|k|]|] eqn:Hp; try done.
    destruct o.
    + pose proof (resolvePool_closed pooling k res s Hc) as Hc1. closed_insert Hc1.
    + pose proof (resolvePool_closed pooling k res s Hc) as Hc1. closed_insert Hc1.
    + closed_insert Hc.
  - destruct (phase s !! r) as [[k|k res|k|]|] eqn:Hp; try done.
    destruct (waitTimers s !! r) as [at_|]; [|done].
    destruct (at_ <=? t); [|done]. closed_insert Hc.
Qed.

Lemma step_keep pooling tmo ssc s e r x :
  sent_closed s -> sent s !! r = Some x -> sent (step pooling tmo ssc s e) !! r = Some x.
Proof.
  intros Hc Hs.
  assert (Hph : match phase s !! r with Some (Storing _ _) | Some Finished => True | _ => False end)
    by (apply Hc; rewrite Hs; eauto).
  destruct e as [r0 key t | r0 resp m | r0 o | r0 t]; cbn [step].
  - destruct (phase s !! r0); [done|]. by destruct (requestHasPool pooling key s).
  - destruct (phase s !! r0) as [[k|k res|k|]|] eqn:Hp; try done.
    assert (r <> r0) by (intros ->; by rewrite Hp in Hph).
    destruct (ssc resp); cbn [sent with_phase_sent]; rewrite lookup_insert_ne by congruence;
      [done | by apply resolvePool_keep].
  - destruct (phase s !! r0) as [[k|k res|k|]|] eqn:Hp; try done.
    destruct o; cbn [sent with_phase]; [by apply resolvePool_keep | by apply resolvePool_keep | done].
  - destruct (phase s !! r0) as [[k|k res|k|]|] eqn:Hp; try done.
    destruct (waitTimers s !! r0) as [at_|]; [|done].
    destruct (at_ <=? t); [|done]. cbn [sent].
    rewrite lookup_insert_ne; [done|]. intros ->. by rewrite Hp in Hph.
Qed.

Lemma run_closed pooling tmo ssc evs s :
  sent_closed s -> sent_closed (run pooling tmo ssc s evs).
Proof.
  induction evs as [|e evs IH] in s |- *; intros Hc; [done|].
  rewrite run_cons. apply IH. by apply step_closed.
Qed.

Lemma run_keep pooling tmo ssc evs s r x :
  sent_closed s -> sent s !! r = Some x -> sent (run pooling tmo ssc s evs) !! r = Some x.
Proof.
  induction evs as [|e evs IH] in s |- *; intros Hc Hs; [done|].
  rewrite run_cons. apply IH; [by apply step_closed | by apply step_keep].
Qed.

Lemma fold_delete_empty (ws : list nat) :
  fold_left (fun m r => delete r m) ws (∅ : gmap nat Z) = ∅.
Proof.
  induction ws as [|a ws IH]; cbn [fold_left]; [done|]. by rewrite delete_empty.
Qed.

(** What holds at every point of a run with pooling off. *)
Lemma emit_no_pool key final s :
  inFlight s = ∅ -> waitTimers s = ∅ -> (forall r k, phase s !! r <> Some (Waiting k)) ->
  (forall r, sent s !! r <> Some timeout_response) ->
  let s' := emit key final s in
  inFlight s' = ∅ /\ waitTimers s' = ∅ /\ (forall r k, phase s' !! r <> Some (Waiting k)) /\
  (forall r, sent s' !! r <> Some timeout_response).
Proof.
  intros Hi Hw Hp Hs s'. subst s'. unfold emit. cbn [inFlight waitTimers phase sent].
  split; [done|]. split; [rewrite Hw; apply fold_delete_empty|]. split.
  - intros r k. rewrite phase_fold. destruct (decide _); [discriminate | apply Hp].
  - intros r H. destruct (respond_values _ _ _ _ _ _ H) as [H'|H'];
      [exact (Hs r H') | exact (cached_response_not_timeout _ _ (eq_sym H'))].
Qed.

Lemma step_no_pool tmo ssc s e :
  inFlight s = ∅ -> waitTimers s = ∅ -> (forall r k, phase s !! r <> Some (Waiting k)) ->
  (forall r, sent s !! r <> Some timeout_response) ->
  let s' := step false tmo ssc s e in
  inFlight s' = ∅ /\ waitTimers s' = ∅ /\ (forall r k, phase s' !! r <> Some (Waiting k)) /\
  (forall r, sent s' !! r <> Some timeout_response).
Proof.
  intros Hi Hw Hp Hs s'. subst s'.
  destruct e as [r key t | r resp m | r o | r t]; cbn [step].
  - destruct (phase s !! r) eqn:E; [done|]. unfold requestHasPool. cbn [andb].
    cbn [inFlight waitTimers phase sent]. split; [done|]. split; [done|]. split; [|done].
    intros r' k. destruct (decide (r' = r)) as [->|?];
      [rewrite lookup_insert_eq; discriminate | rewrite lookup_insert_ne by congruence; apply Hp].
  - destruct (phase s !! r) as [[k|k res|k|]|] eqn:Hp'; try done.
    destruct (ssc resp).
    + cbn [with_phase_sent inFlight waitTimers phase sent].
      split; [done|]. split; [done|]. split.
      * intros r' k'. destruct (decide (r' = r)) as [->|?];
          [rewrite lookup_insert_eq; discriminate | rewrite lookup_insert_ne by congruence; apply Hp].
      * intros r'. destruct (decide (r' = r)) as [->|?].
        -- rewrite lookup_insert_eq. intros H. apply (miss_response_not_timeout resp). congruence.
        -- rewrite lookup_insert_ne by congruence. apply Hs.
    + unfold resolvePool. cbn [with_phase_sent].
      destruct (emit_no_pool k resp s Hi Hw Hp Hs) as (Hi1 & Hw1 & Hp1 & Hs1).
      unfold with_phase_sent. cbn [inFlight waitTimers phase sent].
      split; [done|]. split; [done|]. split.
      * intros r' k'. destruct (decide (r' = r)) as [->|?];
          [rewrite lookup_insert_eq; discriminate | rewrite lookup_insert_ne by congruence; apply Hp1].
      * intros r'. destruct (decide (r' = r)) as [->|?].
        -- rewrite lookup_insert_eq. intros H. apply (miss_response_not_timeout resp). congruence.
        -- rewrite lookup_insert_ne by congruence. apply Hs1.
  - destruct (phase s !! r) as [[k|k res|k|]|] eqn:Hp'; try done.
    assert (Hfin : forall s1 : MW, inFlight s1 = ∅ -> waitTimers s1 = ∅ ->
              (forall r k, phase s1 !! r <> Some (Waiting k)) ->
              (forall r, sent s1 !! r <> Some timeout_response) ->
              let s2 := with_phase s1 (<[r := Finished]> (phase s1)) in
              inFlight s2 = ∅ /\ waitTimers s2 = ∅ /\
              (forall r k, phase s2 !! r <> Some (Waiting k)) /\
              (forall r, sent s2 !! r <> Some timeout_response)).
    { intros s1 Hi1 Hw1 Hp1 Hs1 s2. subst s2. cbn. split; [done|]. split; [done|].
      split; [|done]. intros r' k'. destruct (decide (r' = r)) as [->|?];
        [rewrite lookup_insert_eq; discriminate | rewrite lookup_insert_ne by congruence; apply Hp1]. }
    unfold resolvePool. destruct (emit_no_pool k res s Hi Hw Hp Hs) as (Hi1 & Hw1 & Hp1 & Hs1).
    destruct o; apply Hfin; done.
  - destruct (phase s !! r) as [[k|k res|k|]|] eqn:Hp'; try done.
    exfalso. exact (Hp r k Hp').
Qed.

Lemma run_no_pool tmo ssc evs s :
  inFlight s = ∅ -> waitTimers s = ∅ -> (forall r k, phase s !! r <> Some (Waiting k)) ->
  (forall r, sent s !! r <> Some timeout_response) ->
  let s' := run false tmo ssc s evs in
  inFlight s' = ∅ /\ waitTimers s' = ∅ /\ (forall r k, phase s' !! r <> Some (Waiting k)) /\
  (forall r, sent s' !! r <> Some timeout_response).
Proof.
  induction evs as [|e evs IH] in s |- *; intros Hi Hw Hp Hs; [done|].
  cbn zeta. rewrite run_cons.
  destruct (step_no_pool tmo ssc s e Hi Hw Hp Hs) as (Hi1 & Hw1 & Hp1 & Hs1).
  by apply IH.
Qed.

(* ------------------------------------------------------------------ *)
(** ** Extra properties: the pooling protocol *)

(** X19: a request's response is final: once a request has been sent a
    response (the leader's MISS, a waiter's POOLED broadcast, or its 504),
    no later event replaces it. A waiter answered by the broadcast never
    gets the 504, and a waiter that timed out never gets the broadcast. *)
Theorem response_never_replaced pooling tmo ssc evs1 evs2 r x :
  sent (run pooling tmo ssc empty_mw evs1) !! r = Some x ->
  sent (run pooling tmo ssc empty_mw (evs1 ++ evs2)) !! r = Some x.
Proof.
  intros Hs. rewrite run_app. apply run_keep; [|exact Hs].
  apply run_closed. intros r' Hr'. cbn in Hr'. by destruct Hr'.
Qed.

Lemma response_never_replaced_witness :
  sent (run true default_requestTimeoutMs default_shouldSetCache empty_mw
          ([Arrive 1 "k" 0; Arrive 2 "k" 5; Timeout 2 20005] ++
           [Send 1 sample_response false; StoreDone 1 SetTruthy])) !! 2%nat = Some timeout_response.
Proof.
  apply response_never_replaced. reflexivity.
Defined.

(** X20: with [pooling: false] no key is ever marked in flight, no
    request ever waits in a pool or arms a wait timer, no request gets the
    504, and every request that reaches the pooling decision becomes a
    leader and goes on to the route handler. *)
Theorem pooling_off_no_waiting tmo ssc evs :
  let s := run false tmo ssc empty_mw evs in
  inFlight s = ∅ /\ waitTimers s = ∅ /\ (forall r key, phase s !! r <> Some (Waiting key)) /\
  (forall r, sent s !! r <> Some timeout_response) /\
  (forall r key t, phase s !! r = None ->
     phase (step false tmo ssc s (Arrive r key t)) !! r = Some (Leading key)).
Proof.
  intros s.
  assert (Hinv : inFlight s = ∅ /\ waitTimers s = ∅ /\
                 (forall r key, phase s !! r <> Some (Waiting key)) /\
                 (forall r, sent s !! r <> Some timeout_response)).
  { subst s. apply run_no_pool; cbn; try done; intros; rewrite lookup_empty; discriminate. }
  destruct Hinv as (Hi & Hw & Hp & Hs).
  split; [done|]. split; [done|]. split; [done|]. split; [done|].
  intros r key t Hr. cbn [step]. rewrite Hr. unfold requestHasPool. cbn [andb phase].
  apply lookup_insert_eq.
Qed.

Lemma pooling_off_no_waiting_witness :
  let s := run false default_requestTimeoutMs default_shouldSetCache empty_mw [Arrive 1 "k" 0] in
  phase (step false default_requestTimeoutMs default_shouldSetCache s (Arrive 2 "k" 5)) !! 2%nat
    = Some (Leading "k").
Proof.
  apply (pooling_off_no_waiting default_requestTimeoutMs default_shouldSetCache [Arrive 1 "k" 0]).
  reflexivity.
Defined.
